(** * ToMyPizza! order management: the TaskManager of [js/tasks.js]

  A shallow embedding of the order collection manager (class
  [TaskManager]) and of the browser services it talks to: the clock,
  [Math.random], [confirm], and [localStorage].

  Conventions.
  - Instants are milliseconds since the epoch, in [Z].  An ISO-8601
    string held in a record ([due], [created], [completedAt]) is
    represented by the instant it denotes, so [new Date(s)] and
    [toISOString()] are the identity and [dueDate - now] is [Z]
    subtraction.
  - A [string] holds the UTF-8 encoding of a JavaScript string (a lone
    surrogate encoded like any other code unit), so equal strings are
    equal byte for byte; white space is the whole of the ECMAScript
    [WhiteSpace] and [LineTerminator] classes.
  - One run of an event handler is synchronous; what it reads from the
    browser during that run is collected in an [Env].  In particular
    every [new Date()] and [Date.now()] of one run reads the same
    millisecond. *)

From Stdlib Require Import Ascii String QArith Qround.
From stdpp Require Import base option list strings gmap sorting.

Local Open Scope string_scope.
Local Open Scope list_scope.
Local Open Scope Z_scope.

(** ** Strings: [String.prototype.trim] *)

Module JsString.

(** White space is the ECMAScript [WhiteSpace] and [LineTerminator] code
    points, all of them: in UTF-8 they take one, two or three bytes. *)

(** U+0009 to U+000D and U+0020. *)
Definition is_whitespace1 (c : ascii) : bool :=
  let n := nat_of_ascii c in
  ((9 <=? n) && (n <=? 13) || (n =? 32))%nat.

(** U+00A0, the no-break space: C2 A0. *)
Definition is_whitespace2 (c1 c2 : ascii) : bool :=
  ((nat_of_ascii c1 =? 194) && (nat_of_ascii c2 =? 160))%nat.

(** U+1680 (E1 9A 80); U+2000 to U+200A, U+2028, U+2029 and U+202F
    (E2 80 80 to 8A, A8, A9, AF); U+205F (E2 81 9F); U+3000 (E3 80 80);
    U+FEFF (EF BB BF). *)
Definition is_whitespace3 (c1 c2 c3 : ascii) : bool :=
  let n1 := nat_of_ascii c1 in
  let n2 := nat_of_ascii c2 in
  let n3 := nat_of_ascii c3 in
  ((n1 =? 225) && (n2 =? 154) && (n3 =? 128)
   || (n1 =? 226) && (n2 =? 128)
      && ((128 <=? n3) && (n3 <=? 138) || (n3 =? 168) || (n3 =? 169)
          || (n3 =? 175))
   || (n1 =? 226) && (n2 =? 129) && (n3 =? 159)
   || (n1 =? 227) && (n2 =? 128) && (n3 =? 128)
   || (n1 =? 239) && (n2 =? 187) && (n3 =? 191))%nat.

(** What follows the white-space code point [s] starts with, if it starts
    with one. *)
Definition skipWhitespace (s : string) : option string :=
  match s with
  | String c1 s1 =>
      if is_whitespace1 c1 then Some s1
      else
        match s1 with
        | String c2 s2 =>
            if is_whitespace2 c1 c2 then Some s2
            else
              match s2 with
              | String c3 s3 =>
                  if is_whitespace3 c1 c2 c3 then Some s3 else None
              | EmptyString => None
              end
        | EmptyString => None
        end
  | EmptyString => None
  end.

(** Drop the white space in front. *)
Fixpoint trimStart (s : string) : string :=
  match s with
  | String c1 s1 =>
      if is_whitespace1 c1 then trimStart s1
      else
        match s1 with
        | String c2 s2 =>
            if is_whitespace2 c1 c2 then trimStart s2
            else
              match s2 with
              | String c3 s3 =>
                  if is_whitespace3 c1 c2 c3 then trimStart s3 else s
              | EmptyString => s
              end
        | EmptyString => s
        end
  | EmptyString => EmptyString
  end.

(** [s] is white space from its first code point to its last. *)
Fixpoint all_whitespace (s : string) : bool :=
  match s with
  | String c1 s1 =>
      if is_whitespace1 c1 then all_whitespace s1
      else
        match s1 with
        | String c2 s2 =>
            if is_whitespace2 c1 c2 then all_whitespace s2
            else
              match s2 with
              | String c3 s3 =>
                  if is_whitespace3 c1 c2 c3 then all_whitespace s3 else false
              | EmptyString => false
              end
        | EmptyString => false
        end
  | EmptyString => true
  end.

(** Drop the white space at the end: what is left of [s] from some byte on
    is dropped when it is white space throughout. *)
Fixpoint trimEnd (s : string) : string :=
  match s with
  | String c s' => if all_whitespace s then EmptyString else String c (trimEnd s')
  | EmptyString => EmptyString
  end.

Definition trim (s : string) : string := trimEnd (trimStart s).

(** [s] starts with a white-space code point. *)
Definition startsWithWhitespace (s : string) : bool :=
  match skipWhitespace s with Some _ => true | None => false end.

(** [s] is one white-space code point. *)
Definition isWhitespace (s : string) : bool :=
  match skipWhitespace s with Some EmptyString => true | _ => false end.

(** [s] ends with a white-space code point. *)
Fixpoint endsWithWhitespace (s : string) : bool :=
  match s with
  | String _ s' => isWhitespace s || endsWithWhitespace s'
  | EmptyString => false
  end.

(** [ToBoolean] of a string: the empty string is the only falsy one. *)
Definition truthy (s : string) : bool :=
  match s with EmptyString => false | _ => true end.

End JsString.

(** The no-break space, U+00A0. *)
Definition noBreakSpace : string := String "194"%char (String "160"%char "").

(** ** Records *)

(** An order record.  [completedAt] and [location] are properties that a
    record may lack. *)
Record Task := mkTask {
  id : Z;
  name : string;
  description : string;
  due : Z;
  priority : string;
  status : string;
  created : Z;
  completedAt : option Z;
  location : option string
}.

#[global] Instance Task_eq_dec : EqDecision Task.
Proof. solve_decision. Defined.

(** What the order form hands to [addTask] ([getFormData]); [None] is a
    property that is [undefined]. *)
Record TaskData := mkTaskData {
  data_name : string;
  data_description : option string;
  data_due : Z;
  data_priority : option string
}.

(** The [updatedData] of [editTask]: any subset of a record's properties. *)
Record TaskPatch := mkTaskPatch {
  patch_id : option Z;
  patch_name : option string;
  patch_description : option string;
  patch_due : option Z;
  patch_priority : option string;
  patch_status : option string;
  patch_created : option Z;
  patch_completedAt : option (option Z);
  patch_location : option (option string)
}.

(** [{ ...task, ...updatedData }] *)
Definition spread (task : Task) (p : TaskPatch) : Task :=
  {| id := default (id task) (patch_id p);
     name := default (name task) (patch_name p);
     description := default (description task) (patch_description p);
     due := default (due task) (patch_due p);
     priority := default (priority task) (patch_priority p);
     status := default (status task) (patch_status p);
     created := default (created task) (patch_created p);
     completedAt := default (completedAt task) (patch_completedAt p);
     location := default (location task) (patch_location p) |}.

Definition set_completed (at_ : Z) (task : Task) : Task :=
  {| id := id task; name := name task; description := description task;
     due := due task; priority := priority task;
     status := "completed"; created := created task;
     completedAt := Some at_; location := location task |}.

(** [v || d] for a string that may be [undefined]. *)
Definition or_else (v : option string) (d : string) : string :=
  match v with
  | Some s => if JsString.truthy s then s else d
  | None => d
  end.

(** ** The browser *)

(** What one run of a handler reads from the browser: the clock,
    [Math.random()], the answer to [confirm(...)], and whether
    [localStorage.setItem] throws (quota exceeded). *)
Record Env := mkEnv {
  now : Z;
  random : Q;
  confirmed : bool;
  quotaExceeded : bool
}.

Inductive result (A : Type) : Type :=
| Ok (a : A)
| Throw (error : string).
Arguments Ok {A} a.
Arguments Throw {A} error.

(** The strings kept in local storage, by what they spell: the JSON text of
    an array of order records, or the nine characters [undefined].  A record
    is read back from its JSON text as it was written. *)
Inductive text : Type :=
| TextUndefined
| TextJson (ts : list Task).

(** [JSON.stringify]: [undefined] gives [undefined], not a string. *)
Definition JSON_stringify (v : option (list Task)) : option text :=
  TextJson <$> v.

(** [JSON.parse] *)
Definition JSON_parse (s : text) : result (list Task) :=
  match s with
  | TextJson ts => Ok ts
  | TextUndefined => Throw "SyntaxError"
  end.

(** [String(v)], the conversion [setItem] applies to its value. *)
Definition ToString (v : option text) : text := default TextUndefined v.

Record World := mkWorld {
  storage : gmap string text;
  notifications : list (string * string);
  consoleErrors : list string
}.

Definition getItem (key : string) (w : World) : option text := storage w !! key.

Definition setItem (e : Env) (key : string) (value : option text) (w : World)
  : result World :=
  if quotaExceeded e then Throw "QuotaExceededError"
  else Ok {| storage := <[key := ToString value]> (storage w);
             notifications := notifications w;
             consoleErrors := consoleErrors w |}.

(** [showNotification(message, type)]: the toast is recorded. *)
Definition notify (message type : string) (w : World) : World :=
  {| storage := storage w;
     notifications := notifications w ++ [(message, type)];
     consoleErrors := consoleErrors w |}.

Definition console_error (message : string) (w : World) : World :=
  {| storage := storage w;
     notifications := notifications w;
     consoleErrors := consoleErrors w ++ [message] |}.

(** ** TaskManager *)

(** The manager's fields, and the browser state its methods write.  The DOM
    is not part of the state: [loadTasks] and [updateOrderSummary] redraw it
    from [tasks], [currentFilter] and [currentSort] (see [view]). *)
Record State := mkState {
  tasks : list Task;
  currentFilter : string;
  currentSort : string;
  world : World
}.

Definition set_tasks (ts : list Task) (st : State) : State :=
  {| tasks := ts; currentFilter := currentFilter st;
     currentSort := currentSort st; world := world st |}.

Definition set_world (w : World) (st : State) : State :=
  {| tasks := tasks st; currentFilter := currentFilter st;
     currentSort := currentSort st; world := w |}.

Definition showNotification (message type : string) (st : State) : State :=
  set_world (notify message type (world st)) st.

(** [saveTasks], on the value [this.tasks] has when it runs. *)
Definition saveTasks_of (e : Env) (this_tasks : option (list Task)) (w : World)
  : World :=
  match setItem e "pizzaOrders" (JSON_stringify this_tasks) w with
  | Ok w' => w'
  | Throw error =>
      notify "Error saving orders" "danger"
        (console_error ("Error saving tasks to localStorage: " ++ error) w)
  end.

Definition saveTasks (e : Env) (st : State) : State :=
  set_world (saveTasks_of e (Some (tasks st)) (world st)) st.

Definition minutes (n : Z) : Z := n * 60000.

Definition demoOrders (t : Z) : list Task :=
  [ mkTask 1001 "Large Pepperoni Pizza"
      "Extra cheese, double pepperoni, well-done crust"
      (t + minutes 15) "high" "pending" (t - minutes 5) None
      (Some "Aghia Paraskevi");
    mkTask 1002 "Family Size Margherita"
      "Fresh basil, extra mozzarella, light sauce"
      (t + minutes 25) "medium" "pending" (t - minutes 10) None
      (Some "Chalandri");
    mkTask 1003 "Medium BBQ Chicken Pizza"
      "No onions, extra BBQ sauce, stuffed crust"
      (t + minutes 35) "low" "pending" (t - minutes 15) None
      (Some "Marousi");
    mkTask 1004 "2x Veggie Supreme Pizzas"
      "One with gluten-free crust, extra vegetables"
      (t - minutes 10) "medium" "pending" (t - minutes 45) None
      (Some "Kifisia");
    mkTask 1005 "Hawaiian Pizza"
      "Extra ham, light cheese, pineapple on half"
      (t - minutes 30) "high" "completed" (t - minutes 60)
      (Some (t - minutes 25)) (Some "Nea Smyrni");
    mkTask 1006 "Meat Lovers Pizza"
      "All meats, stuffed crust, extra sauce"
      (t - minutes 45) "high" "completed" (t - minutes 90)
      (Some (t - minutes 40)) (Some "Aghia Paraskevi");
    mkTask 1007 "Four Cheese Pizza"
      "Add mushrooms and black olives"
      (t + minutes 20) "medium" "pending" (t - minutes 8) None
      (Some "Chalandri");
    mkTask 1008 "Greek Style Pizza"
      "Feta cheese, Kalamata olives, oregano"
      (t + minutes 40) "low" "pending" (t - minutes 3) None
      (Some "Marousi") ].

(** [createDemoOrders]: builds the demo array, calls [saveTasks] and returns
    the array.  [this_tasks] is the value of [this.tasks] during the call. *)
Definition createDemoOrders (e : Env) (this_tasks : option (list Task))
  (w : World) : list Task * World :=
  (demoOrders (now e), saveTasks_of e this_tasks w).

(** The constructor.  The right-hand side of
    [this.tasks = storedOrders ? JSON.parse(storedOrders) : this.createDemoOrders()]
    is evaluated before the assignment, so [createDemoOrders] runs while
    [this.tasks] is still [undefined].  A stored string is never empty, hence
    truthy; [null] (no entry) is falsy.  [init] wires listeners and timers and
    draws the page; it does not write to the state. *)
Definition constructor (e : Env) (w : World) : result State :=
  match getItem "pizzaOrders" w with
  | Some storedOrders =>
      match JSON_parse storedOrders with
      | Ok ts => Ok (mkState ts "all" "due" w)
      | Throw error => Throw error
      end
  | None =>
      let '(ts, w') := createDemoOrders e None w in
      Ok (mkState ts "all" "due" w')
  end.

(** *** Filtering and sorting *)

Definition filterTasks (currentFilter : string) (ts : list Task) : list Task :=
  if String.eqb currentFilter "pending" then
    filter (λ task, status task = "pending") ts
  else if String.eqb currentFilter "completed" then
    filter (λ task, status task = "completed") ts
  else ts.

(** [Array.prototype.sort] is the engine's.  ECMAScript fixes what matters
    here: the sort is stable, [a] goes before [b] when the comparator is
    negative and after it when positive, and a [NaN] from the comparator
    counts as [0].  It is modelled by the stable insertion sort: an element
    moves left only past elements the comparator puts strictly after it. *)
Fixpoint sort_insert {A : Type} (compare : A → A → Z) (x : A) (l : list A)
  : list A :=
  match l with
  | [] => [x]
  | y :: l' =>
      if compare x y <=? 0 then x :: y :: l'
      else y :: sort_insert compare x l'
  end.

Definition Array_sort {A : Type} (compare : A → A → Z) (l : list A) : list A :=
  foldr (sort_insert compare) [] l.

(** [priorityOrder[p]]; other keys are [undefined]. *)
Definition priorityOrder (p : string) : option Z :=
  if String.eqb p "high" then Some 3
  else if String.eqb p "medium" then Some 2
  else if String.eqb p "low" then Some 1
  else None.

Section Collation.

(** [a.localeCompare(b)], the host's collation. *)
Variable localeCompare : string → string → Z.

(** The comparator handed to [sort]; a difference with an [undefined]
    operand is [NaN], which [sort] reads as [0]. *)
Definition compareTasks (currentSort : string) (a b : Task) : Z :=
  if String.eqb currentSort "name" then localeCompare (name a) (name b)
  else if String.eqb currentSort "priority" then
    match priorityOrder (priority b), priorityOrder (priority a) with
    | Some pb, Some pa => pb - pa
    | _, _ => 0
    end
  else due a - due b.

Definition sortTasks (currentSort : string) (ts : list Task) : list Task :=
  Array_sort (compareTasks currentSort) ts.

(** The rows [loadTasks] draws. *)
Definition view (st : State) : list Task :=
  sortTasks (currentSort st) (filterTasks (currentFilter st) (tasks st)).

End Collation.

(** The counters [updateOrderSummary] draws: total, pending, completed. *)
Definition orderSummary (st : State) : nat * nat * nat :=
  (length (tasks st),
   length (filter (λ task, status task = "pending") (tasks st)),
   length (filter (λ task, status task = "completed") (tasks st))).

(** *** CRUD operations *)

Definition locations : list string :=
  [ "Aghia Paraskevi"; "Chalandri"; "Marousi"; "Kifisia"; "Nea Smyrni";
    "Glyfada"; "Piraeus"; "Athens Center" ].

(** [locations[Math.floor(Math.random() * locations.length)]] *)
Definition getRandomAthensLocation (e : Env) : option string :=
  let i := Qfloor (random e * inject_Z (Z.of_nat (length locations)))%Q in
  if i <? 0 then None else locations !! Z.to_nat i.

Definition newTask (e : Env) (taskData : TaskData) : Task :=
  {| id := now e;
     name := JsString.trim (data_name taskData);
     description := or_else (JsString.trim <$> data_description taskData) "";
     due := data_due taskData;
     priority := or_else (data_priority taskData) "medium";
     status := "pending";
     created := now e;
     completedAt := None;
     location := getRandomAthensLocation e |}.

Definition addTask (e : Env) (taskData : TaskData) (st : State) : State :=
  let task := newTask e taskData in
  let st := set_tasks (tasks st ++ [task]) st in
  let st := saveTasks e st in
  showNotification ("Order added: " ++ name task) "success" st.

(** [findIndex] and [find] by identifier: the first match. *)
Definition findById (taskId : Z) (ts : list Task) : option (nat * Task) :=
  list_find (λ task, id task = taskId) ts.

Definition editTask (e : Env) (taskId : Z) (updatedData : TaskPatch) (st : State)
  : State :=
  match findById taskId (tasks st) with
  | Some (taskIndex, task) =>
      let st := set_tasks (<[taskIndex := spread task updatedData]> (tasks st)) st in
      let st := saveTasks e st in
      showNotification "Order updated successfully" "info" st
  | None => st
  end.

Definition deleteTask (e : Env) (taskId : Z) (st : State) : State :=
  if confirmed e then
    let st := set_tasks (filter (λ task, id task ≠ taskId) (tasks st)) st in
    let st := saveTasks e st in
    showNotification "Order deleted" "warning" st
  else st.

(** [task.status = ...; task.completedAt = ...] write to the object that
    sits in the array, at the index where [find] found it. *)
Definition markAsCompleted (e : Env) (taskId : Z) (st : State) : State :=
  match findById taskId (tasks st) with
  | Some (i, task) =>
      if decide (status task ≠ "completed") then
        let st := set_tasks (<[i := set_completed (now e) task]> (tasks st)) st in
        let st := saveTasks e st in
        showNotification ("Order delivered: " ++ name task) "success" st
      else st
  | None => st
  end.

(** The click handler of the clear-all button. *)
Definition clearAll (e : Env) (st : State) : State :=
  if decide (length (tasks st) = 0%nat) then
    showNotification "No orders to clear" "info" st
  else if confirmed e then
    let st := set_tasks [] st in
    let st := saveTasks e st in
    showNotification "All orders cleared" "warning" st
  else st.

(** *** Form validation *)

(** [validateField] on a required text input: [!field.value.trim()] fails. *)
Definition validateName (value : string) : bool :=
  JsString.truthy (JsString.trim value).

(** [validateField] on a filled [datetime-local] input:
    [selectedDate < now] fails. *)
Definition validateDue (e : Env) (selectedDate : Z) : bool :=
  negb (selectedDate <? now e).

(** Modelled from the spec: which inputs of the order form carry [required]
    is written in the page's markup, which is not among the sources; by the
    spec they are the name and the due timestamp.  [validateOrderForm] runs
    [validateField] on each of them. *)
Definition validateOrderForm (e : Env) (taskData : TaskData) : bool :=
  validateName (data_name taskData) && validateDue e (data_due taskData).

(** The submit handler of the order form. *)
Definition submitOrder (e : Env) (taskData : TaskData) (st : State) : State :=
  if validateOrderForm e taskData then addTask e taskData st else st.

(** *** The sweep *)

(** [timeDiff <= 0] and [Math.abs(timeDiff) / (1000 * 60) > 60] *)
Definition overdueByAnHour (e : Env) (task : Task) : bool :=
  let timeDiff := due task - now e in
  (timeDiff <=? 0)
  && negb (Qle_bool (inject_Z (Z.abs timeDiff) / inject_Z (1000 * 60)) 60).

(** The callback of [this.tasks.forEach] at index [i]: it reads the object
    now at that index, which an earlier call of [markAsCompleted] may have
    written to. *)
Definition sweepAt (e : Env) (i : nat) (st : State) : State :=
  match tasks st !! i with
  | Some task =>
      if decide (status task = "pending") then
        if overdueByAnHour e task then markAsCompleted e (id task) st else st
      else st
  | None => st
  end.

(** [updateTimers]: [forEach] visits the indices in order; the array is not
    replaced during the loop. *)
Definition updateTimers (e : Env) (st : State) : State :=
  foldl (λ st i, sweepAt e i st) st (seq 0 (length (tasks st))).

(** *** Commands *)

Inductive Command : Type :=
| Add (taskData : TaskData)
| Edit (taskId : Z) (updatedData : TaskPatch)
| Complete (taskId : Z)
| Delete (taskId : Z)
| ClearAll
| Sweep.

Definition run (e : Env) (c : Command) (st : State) : State :=
  match c with
  | Add taskData => addTask e taskData st
  | Edit taskId updatedData => editTask e taskId updatedData st
  | Complete taskId => markAsCompleted e taskId st
  | Delete taskId => deleteTask e taskId st
  | ClearAll => clearAll e st
  | Sweep => updateTimers e st
  end.

(** A session: each command with what the browser answers during it. *)
Definition runAll (cs : list (Env * Command)) (st : State) : State :=
  foldl (λ st ec, run ec.1 ec.2 st) st cs.

Definition ids (st : State) : list Z := id <$> tasks st.

(** *** The collection after a method, as a function of the collection before *)

Definition completeIn (t taskId : Z) (ts : list Task) : list Task :=
  match findById taskId ts with
  | Some (i, task) =>
      if decide (status task ≠ "completed") then <[i := set_completed t task]> ts
      else ts
  | None => ts
  end.

Definition sweepIn (e : Env) (i : nat) (ts : list Task) : list Task :=
  match ts !! i with
  | Some task =>
      if decide (status task = "pending") then
        if overdueByAnHour e task then completeIn (now e) (id task) ts else ts
      else ts
  | None => ts
  end.

Definition sweepAll (e : Env) (ts : list Task) : list Task :=
  foldl (λ ts i, sweepIn e i ts) ts (seq 0 (length ts)).

Definition runIn (e : Env) (c : Command) (ts : list Task) : list Task :=
  match c with
  | Add taskData => ts ++ [newTask e taskData]
  | Edit taskId updatedData =>
      match findById taskId ts with
      | Some (taskIndex, task) => <[taskIndex := spread task updatedData]> ts
      | None => ts
      end
  | Complete taskId => completeIn (now e) taskId ts
  | Delete taskId =>
      if confirmed e then filter (λ task, id task ≠ taskId) ts else ts
  | ClearAll =>
      if decide (length ts = 0%nat) then ts
      else if confirmed e then [] else ts
  | Sweep => sweepAll e ts
  end.

(** [e] with another answer from [setItem]. *)
Definition with_quota (exceeded : bool) (e : Env) : Env :=
  {| now := now e; random := random e; confirmed := confirmed e;
     quotaExceeded := exceeded |}.

(** *** Sample values *)

Definition emptyWorld : World := mkWorld ∅ [] [].

Definition emptyState : State := mkState [] "all" "due" emptyWorld.

(** Noon UTC on 15 March 2025; the user confirms; storage has room. *)
Definition noon : Env := mkEnv 1742040000000 (5 # 8) true false.

Definition laterThat (e : Env) (n : Z) : Env :=
  mkEnv (now e + n) (random e) (confirmed e) (quotaExceeded e).

Definition paddedDraft : TaskData :=
  mkTaskData "  Margherita " (Some " no basil ") (now noon + minutes 30) (Some "low").

Definition plainDraft : TaskData :=
  mkTaskData "Quattro Formaggi" None (now noon + minutes 45) (Some "high").

(** Two orders placed within the same millisecond. *)
Definition twoSameInstant : State :=
  addTask noon plainDraft (addTask noon paddedDraft emptyState).

(** A sweep two hours later. *)
Definition twoHoursLater : Env := laterThat noon (minutes 120).

Definition demoState : State :=
  mkState (demoOrders (now noon)) "all" "due" emptyWorld.

(** What the sweep is meant to do to one record. *)
Definition sweepOne (e : Env) (task : Task) : Task :=
  if decide (status task = "pending" ∧ due task + minutes 60 < now e)
  then set_completed (now e) task else task.

(** What a command needs for identifiers to stay pairwise distinct: Add
    takes the clock reading as the new identifier, so the reading must not be
    one already; Edit must not carry an [id] property. *)
Definition keepsIdentifiers (e : Env) (c : Command) (st : State) : Prop :=
  match c with
  | Add _ => now e ∉ ids st
  | Edit _ updatedData => patch_id updatedData = None
  | _ => True
  end.

Fixpoint allKeepIdentifiers (cs : list (Env * Command)) (st : State) : Prop :=
  match cs with
  | [] => True
  | ec :: cs' =>
      keepsIdentifiers ec.1 ec.2 st ∧ allKeepIdentifiers cs' (run ec.1 ec.2 st)
  end.

(** A stand-in for the host's collation, for sample runs. *)
Definition sampleCollation (a b : string) : Z :=
  if String.eqb a b then 0 else if String.ltb a b then -1 else 1.

(** ** More of [TaskManager] *)

(** *** Editing through the prompt *)

(** [{ name: n }] *)
Definition namePatch (n : string) : TaskPatch :=
  mkTaskPatch None (Some n) None None None None None None None.

Definition set_name (n : string) (task : Task) : Task :=
  {| id := id task; name := n; description := description task;
     due := due task; priority := priority task; status := status task;
     created := created task; completedAt := completedAt task;
     location := location task |}.

(** [handleEdit]; [answer] is what [prompt] returns, [None] when the user
    cancels.  The guard is
    [newName && newName.trim() && newName !== task.name]. *)
Definition handleEdit (e : Env) (answer : option string) (taskId : Z)
  (st : State) : State :=
  match findById taskId (tasks st) with
  | None => st
  | Some (_, task) =>
      match answer with
      | Some newName =>
          if JsString.truthy newName
             && JsString.truthy (JsString.trim newName)
             && negb (String.eqb newName (name task))
          then editTask e taskId (namePatch (JsString.trim newName)) st
          else st
      | None => st
      end
  end.

(** *** The timer cell of a row *)

(** The four texts [createTimerDisplay] produces: the badge Delivered, the
    badge Overdue [overdueMinutes]m, and the timer reading [hours]h
    [minutes]m or [minutes]m. *)
Inductive TimerDisplay : Type :=
| Delivered
| Overdue (overdueMinutes : Z)
| HoursMinutes (hours minutes : Z)
| Minutes (minutes : Z).

(** [Math.floor] of a quotient of integers is [Z.div]; [%] on a positive
    left operand is [Z.modulo]. *)
Definition createTimerDisplay (task : Task) (timeDiff : Z) : TimerDisplay :=
  if decide (status task = "completed") then Delivered
  else if timeDiff <=? 0 then Overdue (Z.abs (timeDiff / (1000 * 60)))
  else
    let hours := timeDiff / (1000 * 60 * 60) in
    let minutes := (timeDiff mod (1000 * 60 * 60)) / (1000 * 60) in
    if 0 <? hours then HoursMinutes hours minutes else Minutes minutes.

(** In [createTaskRow]: [timeDiff = dueDate - now], the timer cell, and
    [isOverdue], which paints the row red. *)
Definition rowTimer (e : Env) (task : Task) : TimerDisplay :=
  createTimerDisplay task (due task - now e).

Definition isOverdue (e : Env) (task : Task) : bool :=
  (due task - now e <=? 0) && negb (String.eqb (status task) "completed").

(** *** The default due date of the form *)

(** A wall-clock reading is written as the milliseconds it shows past
    1970-01-01T00:00 on that clock.  [utcOffset] is how far the local clock
    is ahead of UTC, in milliseconds (minus [getTimezoneOffset()] minutes),
    taken constant over the hour around the call. *)

(** [d.toISOString().slice(0, 16)]: the UTC reading of [d], cut to the
    minute. *)
Definition toISOString_slice16 (t : Z) : Z := t - t mod 60000.

(** [new Date(value)] for the value of a [datetime-local] input, a
    date-time without offset: it is read on the local clock. *)
Definition parseLocalDateTime (utcOffset : Z) (wall : Z) : Z := wall - utcOffset.

(** [setDefaultDueDate]: the value written to the due input, thirty minutes
    after now. *)
Definition setDefaultDueDate (e : Env) : Z :=
  toISOString_slice16 (now e + minutes 30).

(** ** The dashboard of [js/analytics.js] *)

(** [loadData]:
    [JSON.parse(localStorage.getItem('pizzaOrders')) || this.getSampleData()].
    With no entry, [JSON.parse(null)] is [null] and the sample data are
    taken; an array, even an empty one, is truthy.  [sampleData] is what
    [getSampleData] draws. *)
Definition loadData (sampleData : list Task) (w : World) : result (list Task) :=
  match getItem "pizzaOrders" w with
  | Some storedOrders => JSON_parse storedOrders
  | None => Ok sampleData
  end.

(** The two numbers of the status chart: pending, completed. *)
Definition statusChartData (ts : list Task) : nat * nat :=
  (length (filter (λ t, status t = "pending") ts),
   length (filter (λ t, status t = "completed") ts)).

(** ** The countdown of the promotions page *)

Inductive Countdown : Type :=
| Expired
| TimeLeft (days hours minutes seconds : Z).

(** [updateCountdown], on [diff = targetDate - now]: the text it writes to
    the countdown.  (It also sets the width of the progress bar, to a
    percentage computed in floating point; the width is not modelled.) *)
Definition updateCountdown (diff : Z) : Countdown :=
  if diff <=? 0 then Expired
  else
    let days := diff / (1000 * 60 * 60 * 24) in
    let hours := (diff mod (1000 * 60 * 60 * 24)) / (1000 * 60 * 60) in
    let minutes := (diff mod (1000 * 60 * 60)) / (1000 * 60) in
    let seconds := (diff mod (1000 * 60)) / 1000 in
    TimeLeft days hours minutes seconds.

(** *** What keeps the completion timestamp in step with the status *)

Definition stampMatchesStatus (task : Task) : Prop :=
  is_Some (completedAt task) ↔ status task = "completed".

(** Edit leaves status and completion timestamp alone. *)
Definition keepsStamps (c : Command) : Prop :=
  match c with
  | Edit _ updatedData =>
      patch_status updatedData = None ∧ patch_completedAt updatedData = None
  | _ => True
  end.

(** The priority ranks of [sortTasks]. *)
Definition knownPriority (task : Task) : Prop :=
  is_Some (priorityOrder (priority task)).

Definition rank (task : Task) : Z := default 0 (priorityOrder (priority task)).

(** The persisted copy is the collection in memory. *)
Definition storeMatchesMemory (st : State) : Prop :=
  getItem "pizzaOrders" (world st) = Some (TextJson (tasks st)).

(** A record after a sweep at [t]: as before, or completed at [t] from a
    status other than completed. *)
Definition sameOrCompletedAt (t : Z) (before after : Task) : Prop :=
  after = before ∨ (after = set_completed t before ∧ status before ≠ "completed").

(** * Properties *)

(** ** [trim] *)

Lemma append_String (c : ascii) (s1 s2 : string) :
  String c s1 +:+ s2 = String c (s1 +:+ s2).
Proof. reflexivity. Qed.

Lemma append_empty (s : string) : "" +:+ s = s.
Proof. reflexivity. Qed.

Lemma append_assoc (s1 s2 s3 : string) : (s1 +:+ s2) +:+ s3 = s1 +:+ (s2 +:+ s3).
Proof.
  induction s1 as [|c s1 IH]; [done|]. by rewrite !append_String, IH.
Qed.

Lemma append_empty_r (s : string) : s +:+ "" = s.
Proof. induction s as [|c s IH]; [done|]. by rewrite append_String, IH. Qed.

Lemma length_append (s1 s2 : string) :
  String.length (s1 +:+ s2) = (String.length s1 + String.length s2)%nat.
Proof.
  induction s1 as [|c s1 IH]; [done|]. rewrite append_String. simpl.
  by rewrite IH.
Qed.

(** The three kinds of white space do not overlap. *)
Lemma is_whitespace2_not1 (c1 c2 : ascii) :
  JsString.is_whitespace2 c1 c2 = true → JsString.is_whitespace1 c1 = false.
Proof.
  unfold JsString.is_whitespace2, JsString.is_whitespace1.
  intros [->%Nat.eqb_eq _]%andb_true_iff. reflexivity.
Qed.

Lemma is_whitespace3_not12 (c1 c2 c3 : ascii) :
  JsString.is_whitespace3 c1 c2 c3 = true →
  JsString.is_whitespace1 c1 = false ∧ JsString.is_whitespace2 c1 c2 = false.
Proof.
  unfold JsString.is_whitespace3, JsString.is_whitespace2,
    JsString.is_whitespace1.
  intros H. rewrite !orb_true_iff, !andb_true_iff, !Nat.eqb_eq in H.
  destruct H as [[[[[[-> _] _]|[[-> _] _]]|[[-> _] _]]|[[-> _] _]]|[[-> _] _]];
    by split.
Qed.

(** [skipWhitespace] finds the rest of a string: the string is a
    white-space code point followed by that rest. *)
Lemma skipWhitespace_Some (s r : string) :
  JsString.skipWhitespace s = Some r →
  ∃ w, s = w +:+ r ∧ JsString.isWhitespace w = true
       ∧ ∀ x, JsString.skipWhitespace (w +:+ x) = Some x.
Proof.
  unfold JsString.isWhitespace.
  destruct s as [|c1 s1]; simpl; [done|].
  destruct (JsString.is_whitespace1 c1) eqn:H1.
  { intros [= <-]. exists (String c1 ""). simpl. by rewrite H1. }
  destruct s1 as [|c2 s2]; [done|].
  destruct (JsString.is_whitespace2 c1 c2) eqn:H2.
  { intros [= <-]. exists (String c1 (String c2 "")). simpl. by rewrite H1, H2. }
  destruct s2 as [|c3 s3]; [done|].
  destruct (JsString.is_whitespace3 c1 c2 c3) eqn:H3; [|done].
  intros [= <-]. exists (String c1 (String c2 (String c3 ""))). simpl.
  by rewrite H1, H2, H3.
Qed.

Lemma skipWhitespace_append (s r x : string) :
  JsString.skipWhitespace s = Some r →
  JsString.skipWhitespace (s +:+ x) = Some (r +:+ x).
Proof.
  destruct s as [|c1 s1]; simpl; [done|].
  destruct (JsString.is_whitespace1 c1); [by intros [= <-]|].
  destruct s1 as [|c2 s2]; simpl; [done|].
  destruct (JsString.is_whitespace2 c1 c2); [by intros [= <-]|].
  destruct s2 as [|c3 s3]; simpl; [done|].
  destruct (JsString.is_whitespace3 c1 c2 c3); [by intros [= <-]|done].
Qed.

Lemma trimStart_skip (s : string) :
  JsString.trimStart s
  = match JsString.skipWhitespace s with
    | Some r => JsString.trimStart r
    | None => s
    end.
Proof.
  destruct s as [|c1 s1]; simpl; [done|].
  destruct (JsString.is_whitespace1 c1); [done|].
  destruct s1 as [|c2 s2]; [done|].
  destruct (JsString.is_whitespace2 c1 c2); [done|].
  destruct s2 as [|c3 s3]; [done|].
  by destruct (JsString.is_whitespace3 c1 c2 c3).
Qed.

Lemma all_whitespace_skip (s : string) :
  JsString.all_whitespace s
  = match s with
    | "" => true
    | _ => match JsString.skipWhitespace s with
           | Some r => JsString.all_whitespace r
           | None => false
           end
    end.
Proof.
  destruct s as [|c1 s1]; simpl; [done|].
  destruct (JsString.is_whitespace1 c1); [done|].
  destruct s1 as [|c2 s2]; [done|].
  destruct (JsString.is_whitespace2 c1 c2); [done|].
  destruct s2 as [|c3 s3]; [done|].
  by destruct (JsString.is_whitespace3 c1 c2 c3).
Qed.

Lemma skipWhitespace_shorter (s r : string) :
  JsString.skipWhitespace s = Some r → (String.length r < String.length s)%nat.
Proof.
  intros (w & -> & Hw & _)%skipWhitespace_Some.
  destruct w as [|c w]; [done|]. rewrite length_append. simpl. lia.
Qed.

Lemma all_whitespace_cons (w x : string) :
  JsString.isWhitespace w = true →
  JsString.all_whitespace (w +:+ x) = JsString.all_whitespace x.
Proof.
  unfold JsString.isWhitespace. intros Hw.
  destruct (JsString.skipWhitespace w) as [[|]|] eqn:Hskip; try done.
  rewrite all_whitespace_skip.
  rewrite (skipWhitespace_append w "" x Hskip), append_empty.
  destruct w; [done|]. by rewrite append_String.
Qed.

Lemma trimStart_split (s : string) :
  ∃ pre, s = pre +:+ JsString.trimStart s
         ∧ JsString.all_whitespace pre = true
         ∧ JsString.startsWithWhitespace (JsString.trimStart s) = false.
Proof.
  remember (String.length s) as n eqn:Hn. revert s Hn.
  induction (lt_wf n) as [n _ IH]. intros s ->.
  rewrite trimStart_skip. unfold JsString.startsWithWhitespace.
  destruct (JsString.skipWhitespace s) as [r|] eqn:Hskip.
  - destruct (IH _ (skipWhitespace_shorter s r Hskip) r eq_refl)
      as (pre & Hr & Hpre & Hstart).
    apply skipWhitespace_Some in Hskip as (w & -> & Hw & _).
    exists (w +:+ pre). rewrite append_assoc, <- Hr.
    by rewrite all_whitespace_cons.
  - exists "". by rewrite Hskip.
Qed.

Lemma trimEnd_split (s : string) :
  ∃ post, s = JsString.trimEnd s +:+ post
          ∧ JsString.all_whitespace post = true
          ∧ JsString.endsWithWhitespace (JsString.trimEnd s) = false.
Proof.
  induction s as [|c s (post & Hs & Hpost & Hend)]; [by exists ""|].
  change (JsString.trimEnd (String c s))
    with (if JsString.all_whitespace (String c s) then ""
          else String c (JsString.trimEnd s)).
  destruct (JsString.all_whitespace (String c s)) eqn:Hall.
  - by exists (String c s).
  - exists post. rewrite append_String, <- Hs. split; [done|]. split; [done|].
    simpl. rewrite Hend, orb_false_r. apply not_true_iff_false. intros Hw.
    rewrite Hs, <- append_String, (all_whitespace_cons _ _ Hw) in Hall.
    by rewrite Hpost in Hall.
Qed.

Lemma trimEnd_start (s : string) :
  JsString.startsWithWhitespace s = false →
  JsString.startsWithWhitespace (JsString.trimEnd s) = false.
Proof.
  unfold JsString.startsWithWhitespace.
  destruct (trimEnd_split s) as (post & Hs & _ & _).
  destruct (JsString.skipWhitespace (JsString.trimEnd s)) as [r|] eqn:Hskip;
    [|done].
  rewrite Hs at 1. by rewrite (skipWhitespace_append _ r post Hskip).
Qed.

(** [trim s] is [s] without a white-space prefix and a white-space suffix,
    and it neither starts nor ends with a white-space code point. *)
Lemma trim_split (s : string) :
  ∃ pre post, s = pre +:+ JsString.trim s +:+ post
    ∧ JsString.all_whitespace pre = true
    ∧ JsString.all_whitespace post = true
    ∧ JsString.startsWithWhitespace (JsString.trim s) = false
    ∧ JsString.endsWithWhitespace (JsString.trim s) = false.
Proof.
  destruct (trimStart_split s) as (pre & Hs & Hpre & Hfirst).
  destruct (trimEnd_split (JsString.trimStart s)) as (post & Hs' & Hpost & Hlast).
  exists pre, post. unfold JsString.trim.
  rewrite <- Hs', <- Hs. repeat split; try done. by apply trimEnd_start.
Qed.

Example trim_demo : JsString.trim "  Large  Pepperoni " = "Large  Pepperoni".
Proof. reflexivity. Qed.

(** A no-break space around a name is trimmed like any other white space,
    and a name made of one is blank. *)
Example trim_noBreakSpace :
  JsString.trim (noBreakSpace +:+ " Margherita" +:+ noBreakSpace) = "Margherita"
  ∧ JsString.trim noBreakSpace = "".
Proof. split; reflexivity. Qed.

(** ** Persisting *)

Lemma saveTasks_tasks (e : Env) (st : State) : tasks (saveTasks e st) = tasks st.
Proof. reflexivity. Qed.

Lemma saveTasks_ok (e : Env) (st : State) :
  quotaExceeded e = false →
  getItem "pizzaOrders" (world (saveTasks e st)) = Some (TextJson (tasks st)).
Proof.
  intros Hq. unfold saveTasks, saveTasks_of, setItem, getItem. rewrite Hq. simpl.
  by rewrite lookup_insert_eq.
Qed.

Lemma saveTasks_failed (e : Env) (st : State) :
  quotaExceeded e = true →
  saveTasks e st =
    set_world
      (notify "Error saving orders" "danger"
         (console_error "Error saving tasks to localStorage: QuotaExceededError"
            (world st))) st.
Proof. intros Hq. unfold saveTasks, saveTasks_of, setItem. by rewrite Hq. Qed.

(** Loading what a save wrote gives the saved collection back. *)
Lemma load_after_save (e e' : Env) (st : State) :
  quotaExceeded e = false →
  constructor e' (world (saveTasks e st))
  = Ok (mkState (tasks st) "all" "due" (world (saveTasks e st))).
Proof.
  intros Hq. unfold constructor. by rewrite (saveTasks_ok e st Hq).
Qed.

(** C1, on the code: with no entry under the orders key the constructor holds
    the eight demo orders in memory, but what it persists is the text
    [undefined] (it saves before [this.tasks] is assigned), and loading from
    that store again throws instead of yielding the demo set. *)
Theorem constructor_seeds_memory_but_stores_undefined (e : Env) (w : World) :
  getItem "pizzaOrders" w = None →
  quotaExceeded e = false →
  ∃ st, constructor e w = Ok st
    ∧ tasks st = demoOrders (now e)
    ∧ length (tasks st) = 8%nat
    ∧ getItem "pizzaOrders" (world st) = Some TextUndefined
    ∧ ∀ e', constructor e' (world st) = Throw "SyntaxError".
Proof.
  intros Hnone Hq. unfold constructor. rewrite Hnone. simpl.
  eexists. split; [reflexivity |]. simpl.
  assert (Hget : getItem "pizzaOrders" (saveTasks_of e None w) = Some TextUndefined).
  { unfold saveTasks_of, setItem, getItem. rewrite Hq. simpl.
    by rewrite lookup_insert_eq. }
  repeat split; try done. intros e'. by rewrite Hget.
Qed.

Lemma constructor_seeds_memory_but_stores_undefined_at_noon :
  ∃ st, constructor noon emptyWorld = Ok st
    ∧ tasks st = demoOrders (now noon)
    ∧ length (tasks st) = 8%nat
    ∧ getItem "pizzaOrders" (world st) = Some TextUndefined
    ∧ ∀ e', constructor e' (world st) = Throw "SyntaxError".
Proof.
  apply (constructor_seeds_memory_but_stores_undefined noon emptyWorld);
    reflexivity.
Defined.

(** ** Add *)

Lemma addTask_tasks (e : Env) (taskData : TaskData) (st : State) :
  tasks (addTask e taskData st) = tasks st ++ [newTask e taskData].
Proof. reflexivity. Qed.

Lemma submitOrder_valid (e : Env) (taskData : TaskData) (st : State) :
  validateOrderForm e taskData = true →
  submitOrder e taskData st = addTask e taskData st.
Proof. intros Hv. unfold submitOrder. by rewrite Hv. Qed.

(** The scenario of the spec: an empty name is rejected and nothing changes. *)
Lemma submitOrder_empty_name (e : Env) (taskData : TaskData) (st : State) :
  JsString.trim (data_name taskData) = "" →
  submitOrder e taskData st = st.
Proof.
  intros Hn. unfold submitOrder, validateOrderForm, validateName.
  by rewrite Hn.
Qed.

(** [Math.random()] lies in [0, 1), so the index lies in [0, 8). *)
Lemma random_index (r : Q) :
  (0 <= r)%Q → (r < 1)%Q → 0 ≤ Qfloor (r * inject_Z 8) < 8.
Proof.
  intros H0 H1. split.
  - change 0 with (Qfloor 0). apply Qfloor_resp_le.
    apply Qmult_le_0_compat; [done | by compute].
  - rewrite Zlt_Qlt. eapply Qle_lt_trans; [apply Qfloor_le |].
    destruct r as [n d]. unfold Qlt in *. simpl in *. lia.
Qed.

Lemma getRandomAthensLocation_in (e : Env) :
  (0 <= random e)%Q → (random e < 1)%Q →
  ∃ l, getRandomAthensLocation e = Some l ∧ l ∈ locations.
Proof.
  intros H0 H1. unfold getRandomAthensLocation.
  change (Z.of_nat (length locations)) with 8.
  pose proof (random_index (random e) H0 H1) as Hi.
  destruct (Z.ltb_spec (Qfloor (random e * inject_Z 8)) 0) as [|_]; [lia |].
  destruct (lookup_lt_is_Some_2 locations
              (Z.to_nat (Qfloor (random e * inject_Z 8)))) as [l Hl].
  { change (length locations) with 8%nat. lia. }
  exists l. split; [done |]. by eapply list_elem_of_lookup_2.
Qed.

(** C2, as the code has it: for a valid draft whose save succeeds, Add and
    then Load yield the old records, unchanged and in order, followed by
    exactly one new record; its name and description are the draft's with
    surrounding white space removed, its due timestamp is the draft's, its
    priority is the draft's (medium when the draft has none), its status is
    pending and it has no completion timestamp. *)
Theorem add_then_load (e e' : Env) (taskData : TaskData) (st : State) :
  validateOrderForm e taskData = true →
  quotaExceeded e = false →
  ∃ task loaded,
    submitOrder e taskData st = addTask e taskData st
    ∧ constructor e' (world (addTask e taskData st)) = Ok loaded
    ∧ tasks loaded = tasks st ++ [task]
    ∧ name task = JsString.trim (data_name taskData)
    ∧ name task ≠ ""
    ∧ description task = or_else (JsString.trim <$> data_description taskData) ""
    ∧ due task = data_due taskData
    ∧ priority task = or_else (data_priority taskData) "medium"
    ∧ status task = "pending"
    ∧ completedAt task = None.
Proof.
  intros Hv Hq. exists (newTask e taskData). eexists.
  split; [by apply submitOrder_valid |].
  split.
  { unfold addTask, showNotification. simpl.
    unfold constructor, getItem, saveTasks_of, setItem. rewrite Hq. simpl.
    rewrite lookup_insert_eq. reflexivity. }
  simpl. repeat split; try done.
  apply andb_true_iff in Hv as [Hn _]. unfold validateName in Hn.
  intros Hempty. by rewrite Hempty in Hn.
Qed.

Lemma add_then_load_plain_draft :
  ∃ task loaded,
    submitOrder noon plainDraft emptyState = addTask noon plainDraft emptyState
    ∧ constructor (laterThat noon 1000)
        (world (addTask noon plainDraft emptyState)) = Ok loaded
    ∧ tasks loaded = tasks emptyState ++ [task]
    ∧ name task = JsString.trim (data_name plainDraft)
    ∧ name task ≠ ""
    ∧ description task = or_else (JsString.trim <$> data_description plainDraft) ""
    ∧ due task = data_due plainDraft
    ∧ priority task = or_else (data_priority plainDraft) "medium"
    ∧ status task = "pending"
    ∧ completedAt task = None.
Proof.
  apply (add_then_load noon (laterThat noon 1000) plainDraft emptyState);
    reflexivity.
Defined.

(** C2 as stated fails: a valid draft whose name has surrounding white space
    is stored, and loaded back, under the trimmed name. *)
Lemma add_then_load_padded_name_differs :
  validateOrderForm noon paddedDraft = true
  ∧ ∃ task loaded,
      constructor (laterThat noon 1000)
        (world (addTask noon paddedDraft emptyState)) = Ok loaded
      ∧ tasks loaded = [task]
      ∧ name task = "Margherita"
      ∧ name task ≠ data_name paddedDraft
      ∧ description task ≠ default "" (data_description paddedDraft).
Proof.
  split; [reflexivity |]. eexists. eexists.
  split; [reflexivity |]. split; [reflexivity |]. by vm_compute.
Qed.

(** C10: Add stores the trimmed name (the draft's name without a white-space
    prefix and suffix, itself neither starting nor ending with a white-space
    code point), the empty description and priority medium when the
    draft has none, and a location that is one of the eight Athens locations
    and is the same whatever the draft. *)
Theorem addTask_normalizes (e : Env) (taskData : TaskData) (st : State) :
  (0 <= random e)%Q → (random e < 1)%Q →
  ∃ task,
    tasks (addTask e taskData st) = tasks st ++ [task]
    ∧ name task = JsString.trim (data_name taskData)
    ∧ (∃ pre post, data_name taskData = pre +:+ name task +:+ post
         ∧ JsString.all_whitespace pre = true
         ∧ JsString.all_whitespace post = true
         ∧ JsString.startsWithWhitespace (name task) = false
         ∧ JsString.endsWithWhitespace (name task) = false)
    ∧ (data_description taskData = None → description task = "")
    ∧ (data_priority taskData = None → priority task = "medium")
    ∧ (∃ l, location task = Some l ∧ l ∈ locations)
    ∧ length locations = 8%nat
    ∧ ∀ taskData' st',
        last (tasks (addTask e taskData' st')) ≫= location = location task.
Proof.
  intros H0 H1. exists (newTask e taskData).
  split; [reflexivity |]. split; [reflexivity |].
  split; [apply trim_split |].
  split; [intros Hd; simpl; by rewrite Hd |].
  split; [intros Hp; simpl; by rewrite Hp |].
  split; [by apply getRandomAthensLocation_in |].
  split; [reflexivity |].
  intros taskData' st'. rewrite addTask_tasks, last_snoc. reflexivity.
Qed.

Lemma addTask_normalizes_padded_draft :
  ∃ task,
    tasks (addTask noon paddedDraft emptyState) = tasks emptyState ++ [task]
    ∧ name task = JsString.trim (data_name paddedDraft)
    ∧ (∃ pre post, data_name paddedDraft = pre +:+ name task +:+ post
         ∧ JsString.all_whitespace pre = true
         ∧ JsString.all_whitespace post = true
         ∧ JsString.startsWithWhitespace (name task) = false
         ∧ JsString.endsWithWhitespace (name task) = false)
    ∧ (data_description paddedDraft = None → description task = "")
    ∧ (data_priority paddedDraft = None → priority task = "medium")
    ∧ (∃ l, location task = Some l ∧ l ∈ locations)
    ∧ length locations = 8%nat
    ∧ ∀ taskData' st',
        last (tasks (addTask noon taskData' st')) ≫= location = location task.
Proof.
  apply (addTask_normalizes noon paddedDraft emptyState); by vm_compute.
Defined.

(** ** The collection after each method *)

Lemma markAsCompleted_tasks (e : Env) (taskId : Z) (st : State) :
  tasks (markAsCompleted e taskId st) = completeIn (now e) taskId (tasks st).
Proof.
  unfold markAsCompleted, completeIn.
  destruct (findById taskId (tasks st)) as [[i task]|]; [|done].
  by destruct (decide (status task ≠ "completed")).
Qed.

Lemma sweepAt_tasks (e : Env) (i : nat) (st : State) :
  tasks (sweepAt e i st) = sweepIn e i (tasks st).
Proof.
  unfold sweepAt, sweepIn. destruct (tasks st !! i) as [task|]; [|done].
  destruct (decide (status task = "pending")); [|done].
  destruct (overdueByAnHour e task); [|done]. apply markAsCompleted_tasks.
Qed.

Lemma sweep_loop_tasks (e : Env) (indices : list nat) (st : State) :
  tasks (foldl (λ st i, sweepAt e i st) st indices)
  = foldl (λ ts i, sweepIn e i ts) (tasks st) indices.
Proof.
  revert st. induction indices as [|i indices IH]; intros st; simpl; [done|].
  by rewrite IH, sweepAt_tasks.
Qed.

Lemma updateTimers_tasks (e : Env) (st : State) :
  tasks (updateTimers e st) = sweepAll e (tasks st).
Proof. apply sweep_loop_tasks. Qed.

Lemma run_tasks (e : Env) (c : Command) (st : State) :
  tasks (run e c st) = runIn e c (tasks st).
Proof.
  destruct c as [taskData|taskId updatedData|taskId|taskId| |]; simpl.
  - reflexivity.
  - unfold editTask. by destruct (findById taskId (tasks st)) as [[i task]|].
  - apply markAsCompleted_tasks.
  - unfold deleteTask. by destruct (confirmed e).
  - unfold clearAll. destruct (decide (length (tasks st) = 0%nat)); [done|].
    by destruct (confirmed e).
  - apply updateTimers_tasks.
Qed.

Lemma sweepIn_with_quota (b : bool) (e : Env) (i : nat) (ts : list Task) :
  sweepIn (with_quota b e) i ts = sweepIn e i ts.
Proof. reflexivity. Qed.

Lemma runIn_with_quota (b : bool) (e : Env) (c : Command) (ts : list Task) :
  runIn (with_quota b e) c ts = runIn e c ts.
Proof. destruct c; reflexivity. Qed.

(** C8: when the store refuses the write, [saveTasks] catches the exception:
    it returns normally, records the notification "Error saving orders",
    leaves the collection in memory and the store as they were, and every
    operation changes the collection in memory exactly as it does when the
    write succeeds. *)
Theorem saveTasks_failure_is_contained (e : Env) (st : State) :
  quotaExceeded e = true →
  (∀ value, setItem e "pizzaOrders" value (world st) = Throw "QuotaExceededError")
  ∧ tasks (saveTasks e st) = tasks st
  ∧ storage (world (saveTasks e st)) = storage (world st)
  ∧ notifications (world (saveTasks e st))
    = notifications (world st) ++ [("Error saving orders", "danger")]
  ∧ ∀ c, tasks (run e c st) = tasks (run (with_quota false e) c st).
Proof.
  intros Hq. split.
  { intros value. unfold setItem. by rewrite Hq. }
  rewrite (saveTasks_failed e st Hq). repeat split.
  intros c. by rewrite !run_tasks, runIn_with_quota.
Qed.

Lemma saveTasks_failure_is_contained_at_noon :
  (∀ value, setItem (with_quota true noon) "pizzaOrders" value (world emptyState)
            = Throw "QuotaExceededError")
  ∧ tasks (saveTasks (with_quota true noon) emptyState) = tasks emptyState
  ∧ storage (world (saveTasks (with_quota true noon) emptyState))
    = storage (world emptyState)
  ∧ notifications (world (saveTasks (with_quota true noon) emptyState))
    = notifications (world emptyState) ++ [("Error saving orders", "danger")]
  ∧ ∀ c, tasks (run (with_quota true noon) c emptyState)
         = tasks (run (with_quota false (with_quota true noon)) c emptyState).
Proof.
  apply (saveTasks_failure_is_contained (with_quota true noon) emptyState).
  reflexivity.
Defined.

(** ** Complete *)

Lemma findById_Some (taskId : Z) (ts : list Task) (i : nat) (task : Task) :
  findById taskId ts = Some (i, task) ↔
  ts !! i = Some task ∧ id task = taskId
  ∧ ∀ j other, ts !! j = Some other → (j < i)%nat → id other ≠ taskId.
Proof. unfold findById. apply (list_find_Some (λ task, id task = taskId)). Qed.

Lemma findById_None (taskId : Z) (ts : list Task) :
  findById taskId ts = None ↔ taskId ∉ id <$> ts.
Proof.
  unfold findById. rewrite list_find_None, Forall_forall. split.
  - intros Hall (task & -> & Hin)%list_elem_of_fmap. by apply (Hall task).
  - intros Hnot task Hin Hid. apply Hnot, list_elem_of_fmap. by exists task.
Qed.

(** Writing to the found record without changing its identifier leaves it
    the first match. *)
Lemma findById_insert (taskId : Z) (ts : list Task) (i : nat) (task task' : Task) :
  findById taskId ts = Some (i, task) →
  id task' = taskId →
  findById taskId (<[i := task']> ts) = Some (i, task').
Proof.
  intros (Hi & Hid & Hfirst)%findById_Some Hid'. apply findById_Some.
  split; [|split; [done|]].
  - apply list_lookup_insert_eq. by eapply lookup_lt_Some.
  - intros j other Hj Hlt. rewrite list_lookup_insert_ne in Hj by lia.
    by eapply Hfirst.
Qed.

(** C3: Complete is idempotent.  A second call, at any later time, changes
    nothing at all; the record the calls look up is completed, and its
    completion timestamp is the one it had (if it was completed before) or
    the time of the first call. *)
Theorem markAsCompleted_idempotent (e1 e2 : Env) (taskId : Z) (st : State) :
  markAsCompleted e2 taskId (markAsCompleted e1 taskId st)
  = markAsCompleted e1 taskId st
  ∧ match findById taskId (tasks st) with
    | Some (i, task) =>
        ∃ task',
          findById taskId
            (tasks (markAsCompleted e2 taskId (markAsCompleted e1 taskId st)))
          = Some (i, task')
          ∧ status task' = "completed"
          ∧ completedAt task'
            = (if decide (status task = "completed") then completedAt task
               else Some (now e1))
    | None =>
        tasks (markAsCompleted e2 taskId (markAsCompleted e1 taskId st))
        = tasks st
    end.
Proof.
  assert (Hsame : markAsCompleted e2 taskId (markAsCompleted e1 taskId st)
                  = markAsCompleted e1 taskId st).
  { unfold markAsCompleted at 2 3.
    destruct (findById taskId (tasks st)) as [[i task]|] eqn:Hfind.
    - destruct (decide (status task ≠ "completed")) as [Hpending|Hdone].
      + unfold markAsCompleted. simpl.
        rewrite (findById_insert taskId (tasks st) i task
                   (set_completed (now e1) task) Hfind)
          by (apply findById_Some in Hfind; tauto).
        destruct (decide _) as [Hne|]; [by destruct Hne | done].
      + unfold markAsCompleted. rewrite Hfind. by rewrite decide_False.
    - unfold markAsCompleted. by rewrite Hfind. }
  split; [exact Hsame|]. rewrite Hsame, markAsCompleted_tasks.
  unfold completeIn.
  destruct (findById taskId (tasks st)) as [[i task]|] eqn:Hfind; [|done].
  destruct (decide (status task ≠ "completed")) as [Hpending|Hdone].
  - exists (set_completed (now e1) task). split.
    + apply (findById_insert taskId (tasks st) i task); [done|].
      apply findById_Some in Hfind. tauto.
    + simpl. by rewrite decide_False.
  - exists task. apply dec_stable in Hdone. by rewrite decide_True.
Qed.

(** ** Delete *)

Lemma filter_all {A : Type} (P : A → Prop) `{!∀ x, Decision (P x)} (l : list A) :
  Forall P l → filter P l = l.
Proof.
  induction 1 as [|x l Hx _ IH]; [done|].
  by rewrite filter_cons_True, IH.
Qed.

Lemma deleteTask_tasks (e : Env) (taskId : Z) (st : State) :
  confirmed e = true →
  tasks (deleteTask e taskId st) = filter (λ task, id task ≠ taskId) (tasks st).
Proof. intros Hc. unfold deleteTask. by rewrite Hc. Qed.

Lemma deleteTask_declined (e : Env) (taskId : Z) (st : State) :
  confirmed e = false → deleteTask e taskId st = st.
Proof. intros Hc. unfold deleteTask. by rewrite Hc. Qed.

Lemma filter_out_unique (taskId : Z) (l1 l2 : list Task) (task : Task) :
  NoDup (id <$> (l1 ++ task :: l2)) →
  id task = taskId →
  filter (λ task, id task ≠ taskId) (l1 ++ task :: l2) = l1 ++ l2.
Proof.
  intros Hnd Hid. rewrite fmap_app, fmap_cons in Hnd.
  apply NoDup_app in Hnd as (_ & Hl1 & [Hl2 _]%NoDup_cons).
  rewrite filter_app, filter_cons_False by (intros Hne; by apply Hne).
  rewrite !filter_all; [done | |].
  - apply Forall_forall. intros other Hin Heq. apply Hl2.
    rewrite Hid, <- Heq. by apply list_elem_of_fmap_2.
  - apply Forall_forall. intros other Hin Heq.
    apply (Hl1 (id other)); [by apply list_elem_of_fmap_2|].
    rewrite Heq, <- Hid. left.
Qed.

(** C4, as the code has it: a confirmed Delete(id) removes every record whose
    identifier is id and keeps the others in order.  That is exactly one
    record when identifiers are pairwise distinct and one carries id, and
    none (the collection is unchanged) when no record carries id. *)
Theorem deleteTask_removes_by_identifier (e : Env) (taskId : Z) (st : State) :
  confirmed e = true →
  tasks (deleteTask e taskId st) = filter (λ task, id task ≠ taskId) (tasks st)
  ∧ tasks (deleteTask e taskId st) `sublist_of` tasks st
  ∧ (NoDup (ids st) →
     ∀ l1 task l2, tasks st = l1 ++ task :: l2 → id task = taskId →
       tasks (deleteTask e taskId st) = l1 ++ l2)
  ∧ (taskId ∉ ids st → tasks (deleteTask e taskId st) = tasks st).
Proof.
  intros Hc. rewrite (deleteTask_tasks e taskId st Hc).
  split; [done|]. split; [apply sublist_filter|]. split.
  - unfold ids. intros Hnd l1 task l2 Hts Hid. rewrite Hts in *.
    by apply filter_out_unique.
  - intros Hnot. apply filter_all, Forall_forall. intros task Hin Hid.
    apply Hnot. rewrite <- Hid. by apply list_elem_of_fmap_2.
Qed.

Lemma deleteTask_removes_by_identifier_demo :
  tasks (deleteTask noon 1004 demoState)
  = filter (λ task, id task ≠ 1004) (tasks demoState)
  ∧ tasks (deleteTask noon 1004 demoState) `sublist_of` tasks demoState
  ∧ (NoDup (ids demoState) →
     ∀ l1 task l2, tasks demoState = l1 ++ task :: l2 → id task = 1004 →
       tasks (deleteTask noon 1004 demoState) = l1 ++ l2)
  ∧ (1004 ∉ ids demoState → tasks (deleteTask noon 1004 demoState) = tasks demoState).
Proof.
  apply (deleteTask_removes_by_identifier noon 1004 demoState). reflexivity.
Defined.

(** C4 as stated fails: two orders added within one millisecond carry the
    same identifier, and deleting by it removes both. *)
Lemma deleteTask_removes_both_twins :
  length (tasks twoSameInstant) = 2%nat
  ∧ Forall (λ task, id task = now noon) (tasks twoSameInstant)
  ∧ tasks (deleteTask noon (now noon) twoSameInstant) = []
  ∧ S (length (tasks (deleteTask noon (now noon) twoSameInstant)))
    ≠ length (tasks twoSameInstant).
Proof.
  split; [reflexivity|]. split; [by repeat constructor|].
  split; [by vm_compute|]. by vm_compute.
Qed.

(** ** The sweep *)

(** The test of the sweep, in whole milliseconds: the due instant lies more
    than sixty minutes before the sweep. *)
Lemma overdueByAnHour_spec (e : Env) (task : Task) :
  overdueByAnHour e task = true ↔ due task + minutes 60 < now e.
Proof.
  unfold overdueByAnHour, minutes.
  rewrite andb_true_iff, negb_true_iff, Z.leb_le, <- not_true_iff_false.
  rewrite Qle_bool_iff. change (1000 * 60) with 60000.
  unfold Qle, Qdiv, Qmult, Qinv. simpl. lia.
Qed.

Lemma completeIn_ids (t taskId : Z) (ts : list Task) :
  id <$> completeIn t taskId ts = id <$> ts.
Proof.
  unfold completeIn.
  destruct (findById taskId ts) as [[i task]|] eqn:Hfind; [|done].
  destruct (decide (status task ≠ "completed")); [|done].
  apply findById_Some in Hfind as (Hi & _ & _).
  rewrite list_fmap_insert. apply list_insert_id.
  by rewrite list_lookup_fmap, Hi.
Qed.

(** With pairwise distinct identifiers, [find] by the identifier of the
    record at index [k] returns that record. *)
Lemma findById_unique (ts : list Task) (k : nat) (task : Task) :
  NoDup (id <$> ts) →
  ts !! k = Some task →
  findById (id task) ts = Some (k, task).
Proof.
  intros Hnd Hk. apply findById_Some. split; [done|]. split; [done|].
  intros j other Hj Hlt Heq.
  assert (j = k); [|lia].
  apply (NoDup_lookup (id <$> ts) j k (id task)); [done| |].
  - by rewrite list_lookup_fmap, Hj, <- Heq.
  - by rewrite list_lookup_fmap, Hk.
Qed.

Lemma sweepIn_unique (e : Env) (ts : list Task) (k : nat) (task : Task) :
  NoDup (id <$> ts) →
  ts !! k = Some task →
  sweepIn e k ts = <[k := sweepOne e task]> ts.
Proof.
  intros Hnd Hk. unfold sweepIn, sweepOne. rewrite Hk.
  pose proof (overdueByAnHour_spec e task) as Hspec.
  destruct (decide (status task = "pending")) as [Hp|Hp].
  - destruct (overdueByAnHour e task).
    + rewrite decide_True by (split; [done | by apply Hspec]).
      unfold completeIn. rewrite (findById_unique ts k task Hnd Hk).
      rewrite decide_True; [done|]. by rewrite Hp.
    + rewrite decide_False; [by rewrite list_insert_id|].
      intros [_ Hlt]. by apply Hspec in Hlt.
  - rewrite decide_False by tauto. by rewrite list_insert_id.
Qed.

Lemma sweepOne_id (e : Env) (task : Task) : id (sweepOne e task) = id task.
Proof. unfold sweepOne. by destruct (decide _). Qed.

Lemma sweep_loop_unique (e : Env) (ts : list Task) (m k : nat) :
  NoDup (id <$> ts) →
  (k + m = length ts)%nat →
  foldl (λ ts i, sweepIn e i ts)
    ((sweepOne e <$> take k ts) ++ drop k ts) (seq k m)
  = sweepOne e <$> ts.
Proof.
  intros Hnd. revert k. induction m as [|m IH]; intros k Hlen; simpl.
  - rewrite take_ge, drop_ge by lia. by rewrite app_nil_r.
  - destruct (lookup_lt_is_Some_2 ts k) as [task Hk]; [lia|].
    rewrite <- (IH (S k)) by lia. f_equal.
    rewrite (sweepIn_unique e _ k task).
    + rewrite (take_S_r ts k task Hk), (drop_S ts task k Hk), fmap_app.
      rewrite <- app_assoc. simpl.
      rewrite insert_app_r_alt by (rewrite length_fmap, length_take; lia).
      rewrite length_fmap, length_take.
      by replace (k - k `min` length ts)%nat with 0%nat by lia.
    + rewrite fmap_app, <- list_fmap_compose.
      rewrite (list_fmap_ext (id ∘ sweepOne e) id (take k ts))
        by (intros; apply sweepOne_id).
      by rewrite <- fmap_app, take_drop.
    + rewrite lookup_app_r by (rewrite length_fmap, length_take; lia).
      rewrite length_fmap, length_take, lookup_drop.
      by replace (k + (k - k `min` length ts))%nat with k by lia.
Qed.

Lemma sweepAll_unique (e : Env) (ts : list Task) :
  NoDup (id <$> ts) → sweepAll e ts = sweepOne e <$> ts.
Proof.
  intros Hnd. unfold sweepAll.
  by rewrite <- (sweep_loop_unique e ts (length ts) 0 Hnd).
Qed.

(** C5, as the code has it: over a collection whose identifiers are pairwise
    distinct, one sweep completes, with the sweep time as completion
    timestamp, exactly the pending records whose due timestamp lies more than
    sixty minutes before the sweep time, and leaves every other record as it
    was; a single pending record due ninety minutes ago becomes completed. *)
Theorem updateTimers_completes_overdue (e : Env) (st : State) :
  NoDup (ids st) →
  length (tasks (updateTimers e st)) = length (tasks st)
  ∧ (∀ i task, tasks st !! i = Some task →
       tasks (updateTimers e st) !! i
       = Some (if decide (status task = "pending"
                          ∧ due task + minutes 60 < now e)
               then set_completed (now e) task else task))
  ∧ (∀ task, tasks st = [task] → status task = "pending" →
       due task = now e - minutes 90 →
       tasks (updateTimers e st) = [set_completed (now e) task]).
Proof.
  intros Hnd. rewrite updateTimers_tasks, (sweepAll_unique e _ Hnd).
  split; [by rewrite length_fmap|]. split.
  - intros i task Hi. by rewrite list_lookup_fmap, Hi.
  - intros task -> Hp Hdue. simpl. unfold sweepOne.
    rewrite decide_True; [done|]. split; [done|]. unfold minutes in *. lia.
Qed.

Lemma updateTimers_completes_overdue_demo :
  length (tasks (updateTimers twoHoursLater demoState)) = length (tasks demoState)
  ∧ (∀ i task, tasks demoState !! i = Some task →
       tasks (updateTimers twoHoursLater demoState) !! i
       = Some (if decide (status task = "pending"
                          ∧ due task + minutes 60 < now twoHoursLater)
               then set_completed (now twoHoursLater) task else task))
  ∧ (∀ task, tasks demoState = [task] → status task = "pending" →
       due task = now twoHoursLater - minutes 90 →
       tasks (updateTimers twoHoursLater demoState)
       = [set_completed (now twoHoursLater) task]).
Proof.
  apply (updateTimers_completes_overdue twoHoursLater demoState).
  apply (bool_decide_unpack (NoDup (ids demoState))). by vm_compute.
Defined.

(** C5 as stated fails: of two pending orders that share an identifier and
    are both overdue by more than an hour, the sweep completes the first
    twice over and leaves the second pending. *)
Lemma updateTimers_skips_twin :
  ∃ task,
    tasks twoSameInstant !! 1%nat = Some task
    ∧ status task = "pending"
    ∧ due task + minutes 60 < now twoHoursLater
    ∧ tasks (updateTimers twoHoursLater twoSameInstant) !! 1%nat = Some task.
Proof.
  eexists. split; [reflexivity|]. by vm_compute.
Qed.

(** ** Filter *)

Lemma filter_completed_not_pending (ts : list Task) :
  Forall (λ task, status task = "pending" ∨ status task = "completed") ts →
  filter (λ task, status task = "completed") ts
  = filter (λ task, ¬ status task = "pending") ts.
Proof.
  induction 1 as [|task ts [Hs|Hs] _ IH]; [done| |];
    rewrite !filter_cons, IH;
    repeat case_decide; try done; rewrite Hs in *; done.
Qed.

(** C6: when every status is pending or completed, the pending and the
    completed records together are the records of the collection, no record
    is in both, the filter [all] returns the collection itself, and every
    filtered result is a subsequence of the collection in its order. *)
Theorem filterTasks_partition (ts : list Task) :
  Forall (λ task, status task = "pending" ∨ status task = "completed") ts →
  filterTasks "pending" ts ++ filterTasks "completed" ts ≡ₚ ts
  ∧ (∀ task, task ∈ filterTasks "pending" ts →
             task ∉ filterTasks "completed" ts)
  ∧ filterTasks "all" ts = ts
  ∧ ∀ criterion, filterTasks criterion ts `sublist_of` ts.
Proof.
  intros Hstatus.
  change (filterTasks "pending" ts)
    with (filter (λ task, status task = "pending") ts).
  change (filterTasks "completed" ts)
    with (filter (λ task, status task = "completed") ts).
  split.
  { rewrite (filter_completed_not_pending ts Hstatus).
    apply filter_app_complement. }
  split.
  { intros task [Hp _]%list_elem_of_filter [Hc _]%list_elem_of_filter.
    by rewrite Hp in Hc. }
  split; [reflexivity|].
  intros criterion. unfold filterTasks.
  destruct (String.eqb criterion "pending"); [apply sublist_filter|].
  destruct (String.eqb criterion "completed"); [apply sublist_filter|done].
Qed.

Lemma filterTasks_partition_demo :
  filterTasks "pending" (demoOrders (now noon))
    ++ filterTasks "completed" (demoOrders (now noon))
  ≡ₚ demoOrders (now noon)
  ∧ (∀ task, task ∈ filterTasks "pending" (demoOrders (now noon)) →
             task ∉ filterTasks "completed" (demoOrders (now noon)))
  ∧ filterTasks "all" (demoOrders (now noon)) = demoOrders (now noon)
  ∧ ∀ criterion,
      filterTasks criterion (demoOrders (now noon))
        `sublist_of` demoOrders (now noon).
Proof.
  apply (filterTasks_partition (demoOrders (now noon))).
  apply (bool_decide_unpack
           (Forall (λ task, status task = "pending" ∨ status task = "completed")
              (demoOrders (now noon)))).
  by vm_compute.
Defined.

(** ** Sort *)

Section SortByKey.

Context {A : Type} (key : A → Z) (compare : A → A → Z).
Hypothesis compare_key : ∀ a b, compare a b ≤ 0 ↔ key a ≤ key b.

Lemma sort_insert_perm (x : A) (l : list A) : sort_insert compare x l ≡ₚ x :: l.
Proof.
  induction l as [|y l IH]; simpl; [done|].
  destruct (compare x y <=? 0); [done|]. by rewrite IH, Permutation_swap.
Qed.

Lemma Array_sort_perm (l : list A) : Array_sort compare l ≡ₚ l.
Proof.
  induction l as [|x l IH]; simpl; [done|].
  by rewrite sort_insert_perm, IH.
Qed.

Lemma sort_insert_sorted (x : A) (l : list A) :
  StronglySorted (λ a b, key a ≤ key b) l →
  StronglySorted (λ a b, key a ≤ key b) (sort_insert compare x l).
Proof.
  induction 1 as [|y l Hl IH Hy]; simpl; [by repeat constructor|].
  destruct (Z.leb_spec (compare x y) 0) as [Hle|Hgt].
  - apply compare_key in Hle. constructor; [by constructor|].
    constructor; [done|]. eapply Forall_impl; [exact Hy|].
    intros z Hz. simpl in *. lia.
  - assert (key y ≤ key x) by (pose proof (compare_key x y); lia).
    constructor; [done|]. rewrite sort_insert_perm. by constructor.
Qed.

Lemma Array_sort_sorted (l : list A) :
  StronglySorted (λ a b, key a ≤ key b) (Array_sort compare l).
Proof.
  induction l as [|x l IH]; simpl; [constructor|]. by apply sort_insert_sorted.
Qed.

(** Insertion does not reorder the elements of one key. *)
Lemma sort_insert_stable (k : Z) (x : A) (l : list A) :
  filter (λ a, key a = k) (sort_insert compare x l)
  = filter (λ a, key a = k) (x :: l).
Proof.
  induction l as [|y l IH]; simpl; [done|].
  destruct (Z.leb_spec (compare x y) 0) as [Hle|Hgt]; [done|].
  assert (key y < key x) by (pose proof (compare_key x y); lia).
  rewrite (filter_cons _ y), IH, !(filter_cons _ x), (filter_cons _ y).
  repeat case_decide; try done; lia.
Qed.

Lemma Array_sort_stable (k : Z) (l : list A) :
  filter (λ a, key a = k) (Array_sort compare l) = filter (λ a, key a = k) l.
Proof.
  induction l as [|x l IH]; simpl; [done|].
  by rewrite sort_insert_stable, !filter_cons, IH.
Qed.

End SortByKey.

(** C7: sorting by due date returns a permutation of the collection in
    which each record is due no later than the next one, and the records of
    any one due timestamp appear in the order they had. *)
Theorem sortTasks_due (localeCompare : string → string → Z) (ts : list Task) :
  sortTasks localeCompare "due" ts ≡ₚ ts
  ∧ Sorted (λ a b, due a ≤ due b) (sortTasks localeCompare "due" ts)
  ∧ ∀ d, filter (λ task, due task = d) (sortTasks localeCompare "due" ts)
         = filter (λ task, due task = d) ts.
Proof.
  assert (Hkey : ∀ a b, compareTasks localeCompare "due" a b ≤ 0 ↔ due a ≤ due b).
  { intros a b. change (compareTasks localeCompare "due" a b) with (due a - due b).
    lia. }
  unfold sortTasks. split; [apply Array_sort_perm|]. split.
  - apply StronglySorted_Sorted. by apply Array_sort_sorted.
  - intros d. by apply Array_sort_stable.
Qed.

(** Records due at the same instant keep their order. *)
Example sortTasks_due_ties :
  id <$> sortTasks sampleCollation "due"
           [ mkTask 1 "a" "" 500 "low" "pending" 0 None None;
             mkTask 2 "b" "" 300 "low" "pending" 0 None None;
             mkTask 3 "c" "" 500 "high" "pending" 0 None None;
             mkTask 4 "d" "" 300 "high" "pending" 0 None None ]
  = [2; 4; 1; 3].
Proof. reflexivity. Qed.

Example sortTasks_due_demo :
  id <$> sortTasks sampleCollation "due" (demoOrders (now noon))
  = [1006; 1005; 1004; 1001; 1007; 1002; 1003; 1008].
Proof. reflexivity. Qed.

(** ** Identifiers *)

Lemma sweepIn_ids (e : Env) (i : nat) (ts : list Task) :
  id <$> sweepIn e i ts = id <$> ts.
Proof.
  unfold sweepIn. destruct (ts !! i) as [task|]; [|done].
  destruct (decide (status task = "pending")); [|done].
  destruct (overdueByAnHour e task); [|done]. apply completeIn_ids.
Qed.

Lemma sweepAll_ids (e : Env) (ts : list Task) :
  id <$> sweepAll e ts = id <$> ts.
Proof.
  unfold sweepAll. generalize (seq 0 (length ts)) as indices.
  intros indices. revert ts.
  induction indices as [|i indices IH]; intros ts; simpl; [done|].
  by rewrite IH, sweepIn_ids.
Qed.

Lemma spread_id (task : Task) (updatedData : TaskPatch) :
  patch_id updatedData = None → id (spread task updatedData) = id task.
Proof. intros Hp. simpl. by rewrite Hp. Qed.

Lemma addTask_ids (e : Env) (taskData : TaskData) (st : State) :
  ids (addTask e taskData st) = ids st ++ [now e].
Proof. unfold ids. by rewrite addTask_tasks, fmap_app. Qed.

Lemma addTask_NoDup (e : Env) (taskData : TaskData) (st : State) :
  NoDup (ids st) →
  NoDup (ids (addTask e taskData st)) ↔ now e ∉ ids st.
Proof.
  intros Hnd. rewrite addTask_ids, NoDup_app. split.
  - intros (_ & Hfresh & _) Hin. apply (Hfresh _ Hin). left.
  - intros Hfresh. split; [done|]. split; [|apply NoDup_singleton].
    intros x Hin ->%list_elem_of_singleton. done.
Qed.

Lemma run_keeps_identifiers (e : Env) (c : Command) (st : State) :
  NoDup (ids st) → keepsIdentifiers e c st → NoDup (ids (run e c st)).
Proof.
  intros Hnd Hkeep.
  destruct c as [taskData|taskId updatedData|taskId|taskId| |].
  - by apply addTask_NoDup.
  - unfold ids in *. rewrite run_tasks. simpl in *.
    destruct (findById taskId (tasks st)) as [[i task]|] eqn:Hfind; [|done].
    apply findById_Some in Hfind as (Hi & _ & _).
    rewrite list_fmap_insert, (spread_id task updatedData Hkeep).
    rewrite list_insert_id; [done|]. by rewrite list_lookup_fmap, Hi.
  - unfold ids in *. rewrite run_tasks. simpl. by rewrite completeIn_ids.
  - unfold ids in *. rewrite run_tasks. simpl.
    destruct (confirmed e); [|done].
    eapply sublist_NoDup; [exact Hnd|]. apply fmap_sublist, sublist_filter.
  - unfold ids in *. rewrite run_tasks. simpl.
    destruct (decide (length (tasks st) = 0%nat)); [done|].
    destruct (confirmed e); [constructor|done].
  - unfold ids in *. rewrite run_tasks. simpl. by rewrite sweepAll_ids.
Qed.

(** C9, as the code has it: pairwise distinct identifiers stay pairwise
    distinct along any session in which each Add happens at a clock reading
    that is not already an identifier and no Edit carries an identifier;
    Complete, Delete, ClearAll and the sweep never break it.  An Add keeps
    identifiers distinct exactly when its clock reading is fresh. *)
Theorem identifiers_stay_distinct (cs : list (Env * Command)) (st : State) :
  NoDup (ids st) →
  allKeepIdentifiers cs st →
  NoDup (ids (runAll cs st))
  ∧ ∀ e taskData,
      NoDup (ids (addTask e taskData (runAll cs st)))
      ↔ now e ∉ ids (runAll cs st).
Proof.
  intros Hnd Hkeep.
  assert (Hall : NoDup (ids (runAll cs st))).
  { revert st Hnd Hkeep. induction cs as [|[e c] cs IH]; intros st Hnd Hkeep.
    - done.
    - destruct Hkeep as [Hc Hcs]. simpl in *. apply IH; [|done].
      by apply run_keeps_identifiers. }
  split; [done|]. intros e taskData. by apply addTask_NoDup.
Qed.

Lemma identifiers_stay_distinct_demo :
  NoDup (ids (runAll [(noon, Add plainDraft);
                      (laterThat noon 1, Add paddedDraft);
                      (laterThat noon 2, Complete 1004);
                      (laterThat noon 3, Delete 1001);
                      (twoHoursLater, Sweep)] demoState))
  ∧ ∀ e taskData,
      NoDup (ids (addTask e taskData
                    (runAll [(noon, Add plainDraft);
                             (laterThat noon 1, Add paddedDraft);
                             (laterThat noon 2, Complete 1004);
                             (laterThat noon 3, Delete 1001);
                             (twoHoursLater, Sweep)] demoState)))
      ↔ now e ∉ ids (runAll [(noon, Add plainDraft);
                              (laterThat noon 1, Add paddedDraft);
                              (laterThat noon 2, Complete 1004);
                              (laterThat noon 3, Delete 1001);
                              (twoHoursLater, Sweep)] demoState).
Proof.
  apply (identifiers_stay_distinct
           [(noon, Add plainDraft);
            (laterThat noon 1, Add paddedDraft);
            (laterThat noon 2, Complete 1004);
            (laterThat noon 3, Delete 1001);
            (twoHoursLater, Sweep)] demoState).
  - apply (bool_decide_unpack (NoDup (ids demoState))). by vm_compute.
  - simpl. repeat split.
    + apply (bool_decide_unpack (now noon ∉ ids demoState)). by vm_compute.
    + apply (bool_decide_unpack
               (now (laterThat noon 1) ∉ ids (addTask noon plainDraft demoState))).
      by vm_compute.
Defined.

(** C9 as stated fails: a second Add within the same millisecond assigns an
    identifier that is already in the collection. *)
Lemma addTask_same_instant_repeats_identifier :
  NoDup (ids (addTask noon paddedDraft emptyState))
  ∧ ids twoSameInstant = [now noon; now noon]
  ∧ ¬ NoDup (ids twoSameInstant).
Proof.
  split; [apply (bool_decide_unpack (NoDup _)); by vm_compute|].
  split; [reflexivity|].
  apply (bool_decide_unpack (¬ NoDup (ids twoSameInstant))). by vm_compute.
Qed.

(** * Further properties *)

(** ** The persisted copy *)

Lemma saved_and_notified (e : Env) (message type : string) (st : State) :
  quotaExceeded e = false →
  storeMatchesMemory (showNotification message type (saveTasks e st)).
Proof. intros Hq. unfold storeMatchesMemory. simpl. by apply saveTasks_ok. Qed.

Lemma markAsCompleted_store (e : Env) (taskId : Z) (st : State) :
  quotaExceeded e = false →
  storeMatchesMemory st → storeMatchesMemory (markAsCompleted e taskId st).
Proof.
  intros Hq Hst. unfold markAsCompleted.
  destruct (findById taskId (tasks st)) as [[i task]|]; [|done].
  destruct (decide (status task ≠ "completed")); [|done].
  by apply saved_and_notified.
Qed.

Lemma sweepAt_store (e : Env) (i : nat) (st : State) :
  quotaExceeded e = false →
  storeMatchesMemory st → storeMatchesMemory (sweepAt e i st).
Proof.
  intros Hq Hst. unfold sweepAt. destruct (tasks st !! i) as [task|]; [|done].
  destruct (decide (status task = "pending")); [|done].
  destruct (overdueByAnHour e task); [|done]. by apply markAsCompleted_store.
Qed.

Lemma run_store (e : Env) (c : Command) (st : State) :
  quotaExceeded e = false →
  storeMatchesMemory st → storeMatchesMemory (run e c st).
Proof.
  intros Hq Hst.
  destruct c as [taskData|taskId updatedData|taskId|taskId| |]; simpl.
  - by apply saved_and_notified.
  - unfold editTask. destruct (findById taskId (tasks st)) as [[i task]|];
      [by apply saved_and_notified | done].
  - by apply markAsCompleted_store.
  - unfold deleteTask. destruct (confirmed e);
      [by apply saved_and_notified | done].
  - unfold clearAll. destruct (decide (length (tasks st) = 0%nat)); [done|].
    destruct (confirmed e); [by apply saved_and_notified | done].
  - unfold updateTimers. generalize (seq 0 (length (tasks st))) as indices.
    intros indices. revert st Hst.
    induction indices as [|i indices IH]; intros st Hst; simpl; [done|].
    apply IH. by apply sweepAt_store.
Qed.

(** A command whose write is not refused either leaves the persisted copy
    equal to the collection, or has touched neither. *)
Lemma markAsCompleted_store_or_same (e : Env) (taskId : Z) (st : State) :
  quotaExceeded e = false →
  storeMatchesMemory (markAsCompleted e taskId st)
  ∨ markAsCompleted e taskId st = st.
Proof.
  intros Hq. unfold markAsCompleted.
  destruct (findById taskId (tasks st)) as [[i task]|]; [|by right].
  destruct (decide (status task ≠ "completed")); [|by right].
  left. by apply saved_and_notified.
Qed.

Lemma sweep_loop_store_or_same (e : Env) (indices : list nat) (st : State) :
  quotaExceeded e = false →
  storeMatchesMemory (foldl (λ st i, sweepAt e i st) st indices)
  ∨ foldl (λ st i, sweepAt e i st) st indices = st.
Proof.
  intros Hq. revert st.
  induction indices as [|i indices IH]; intros st; simpl; [by right|].
  assert (Hstep : storeMatchesMemory (sweepAt e i st) ∨ sweepAt e i st = st).
  { unfold sweepAt. destruct (tasks st !! i) as [task|]; [|by right].
    destruct (decide (status task = "pending")); [|by right].
    destruct (overdueByAnHour e task); [|by right].
    by apply markAsCompleted_store_or_same. }
  destruct Hstep as [Hsaved| ->]; [|apply IH]. left.
  clear IH. revert Hsaved. generalize (sweepAt e i st). clear st.
  induction indices as [|j indices IH]; intros st Hst; simpl; [done|].
  apply IH. by apply sweepAt_store.
Qed.

Lemma run_store_or_same (e : Env) (c : Command) (st : State) :
  quotaExceeded e = false →
  storeMatchesMemory (run e c st)
  ∨ (tasks (run e c st) = tasks st
     ∧ storage (world (run e c st)) = storage (world st)).
Proof.
  intros Hq.
  destruct c as [taskData|taskId updatedData|taskId|taskId| |]; simpl.
  - left. by apply saved_and_notified.
  - unfold editTask. destruct (findById taskId (tasks st)) as [[i task]|];
      [left; by apply saved_and_notified | by right].
  - destruct (markAsCompleted_store_or_same e taskId st Hq) as [?| ->];
      [by left | by right].
  - unfold deleteTask. destruct (confirmed e);
      [left; by apply saved_and_notified | by right].
  - unfold clearAll. destruct (decide (length (tasks st) = 0%nat)); [by right|].
    destruct (confirmed e); [left; by apply saved_and_notified | by right].
  - unfold updateTimers.
    destruct (sweep_loop_store_or_same e (seq 0 (length (tasks st))) st Hq)
      as [?| ->]; [by left | by right].
Qed.

(** In a session in which no write is refused: the session either ends with
    the persisted copy equal to the collection in memory, or has changed
    neither the collection nor the store (so a store that was wrong at the
    start, as after a first visit, stays wrong until a command writes).  If
    the persisted copy equals the collection before the session, it does
    after it.  And whenever it does, a reload yields the collection in
    memory, with the filter back at [all] and the sort at [due]. *)
Theorem store_follows_memory (cs : list (Env * Command)) (st : State) :
  Forall (λ ec, quotaExceeded ec.1 = false) cs →
  (storeMatchesMemory (runAll cs st)
   ∨ (tasks (runAll cs st) = tasks st
      ∧ storage (world (runAll cs st)) = storage (world st)))
  ∧ (storeMatchesMemory st → storeMatchesMemory (runAll cs st))
  ∧ (storeMatchesMemory (runAll cs st) →
     ∀ e', ∃ loaded,
       constructor e' (world (runAll cs st)) = Ok loaded
       ∧ tasks loaded = tasks (runAll cs st)
       ∧ currentFilter loaded = "all"
       ∧ currentSort loaded = "due").
Proof.
  intros Hq.
  assert (Hkeep : ∀ st, storeMatchesMemory st → storeMatchesMemory (runAll cs st)).
  { induction Hq as [|[e c] cs He _ IH]; intros st' Hst; [done|].
    simpl. apply IH. by apply run_store. }
  split; [|split; [apply Hkeep|]].
  - clear Hkeep. revert st.
    induction Hq as [|[e c] cs He Hcs IH]; intros st; [by right|]. simpl in *.
    destruct (run_store_or_same e c st He) as [Hsaved|[Htasks Hstore]].
    + left. clear IH. revert Hsaved. generalize (run e c st).
      induction Hcs as [|[e' c'] cs He' _ IH]; intros st' Hst'; [done|].
      simpl. apply IH. by apply run_store.
    + destruct (IH (run e c st)) as [?|[Htasks' Hstore']]; [by left|].
      right. by rewrite Htasks', Hstore'.
  - intros Hend e'. unfold constructor.
    unfold storeMatchesMemory in Hend. rewrite Hend. simpl. by eexists.
Qed.

Lemma store_follows_memory_demo :
  (storeMatchesMemory
     (runAll [(noon, Complete 1004); (laterThat noon 5, Delete 1002);
              (twoHoursLater, Sweep)] demoState)
   ∨ (tasks (runAll [(noon, Complete 1004); (laterThat noon 5, Delete 1002);
                     (twoHoursLater, Sweep)] demoState)
      = tasks demoState
      ∧ storage (world (runAll [(noon, Complete 1004);
                                (laterThat noon 5, Delete 1002);
                                (twoHoursLater, Sweep)] demoState))
        = storage (world demoState)))
  ∧ (storeMatchesMemory demoState →
     storeMatchesMemory
       (runAll [(noon, Complete 1004); (laterThat noon 5, Delete 1002);
                (twoHoursLater, Sweep)] demoState))
  ∧ (storeMatchesMemory
       (runAll [(noon, Complete 1004); (laterThat noon 5, Delete 1002);
                (twoHoursLater, Sweep)] demoState) →
     ∀ e', ∃ loaded,
       constructor e'
         (world (runAll [(noon, Complete 1004); (laterThat noon 5, Delete 1002);
                         (twoHoursLater, Sweep)] demoState)) = Ok loaded
       ∧ tasks loaded
         = tasks (runAll [(noon, Complete 1004); (laterThat noon 5, Delete 1002);
                          (twoHoursLater, Sweep)] demoState)
       ∧ currentFilter loaded = "all"
       ∧ currentSort loaded = "due").
Proof.
  apply (store_follows_memory
           [(noon, Complete 1004); (laterThat noon 5, Delete 1002);
            (twoHoursLater, Sweep)] demoState).
  repeat constructor.
Defined.

(** After a first visit, a command that writes nothing (completing an
    identifier no order has) leaves the store as the visit left it: the
    reload still fails. *)
Example first_visit_then_idle :
  ∃ st, constructor noon emptyWorld = Ok st
    ∧ runAll [(laterThat noon 1000, Complete 9999)] st = st
    ∧ constructor twoHoursLater
        (world (runAll [(laterThat noon 1000, Complete 9999)] st))
      = Throw "SyntaxError".
Proof. eexists. split; [reflexivity|]. split; reflexivity. Qed.

Lemma constructor_fresh (e : Env) (w : World) :
  getItem "pizzaOrders" w = None →
  constructor e w
  = Ok (mkState (demoOrders (now e)) "all" "due" (saveTasks_of e None w)).
Proof. intros Hnone. unfold constructor. by rewrite Hnone. Qed.

Lemma saveTasks_of_undefined (e : Env) (w : World) :
  quotaExceeded e = false →
  getItem "pizzaOrders" (saveTasks_of e None w) = Some TextUndefined.
Proof.
  intros Hq. unfold saveTasks_of, setItem, getItem. rewrite Hq. simpl.
  by rewrite lookup_insert_eq.
Qed.

(** The store a first visit leaves behind (the text [undefined]) is put
    right by the first order added: a reload then yields the demo orders
    followed by the new one. *)
Theorem first_add_repairs_store (e0 e : Env) (w : World) (taskData : TaskData) :
  getItem "pizzaOrders" w = None →
  quotaExceeded e0 = false →
  quotaExceeded e = false →
  ∃ st, constructor e0 w = Ok st
    ∧ (∀ e', constructor e' (world st) = Throw "SyntaxError")
    ∧ ∀ e', ∃ loaded,
        constructor e' (world (addTask e taskData st)) = Ok loaded
        ∧ tasks loaded = demoOrders (now e0) ++ [newTask e taskData].
Proof.
  intros Hnone Hq0 Hq. eexists. split; [by apply constructor_fresh|]. split.
  - intros e'. unfold constructor. simpl.
    by rewrite (saveTasks_of_undefined e0 w Hq0).
  - intros e'.
    pose proof (saved_and_notified e
                  ("Order added: " +:+ name (newTask e taskData)) "success"
                  (set_tasks (demoOrders (now e0) ++ [newTask e taskData])
                     (mkState (demoOrders (now e0)) "all" "due"
                        (saveTasks_of e0 None w))) Hq) as Hsaved.
    unfold storeMatchesMemory in Hsaved. unfold constructor, addTask.
    simpl in *. rewrite Hsaved. by eexists.
Qed.

Lemma first_add_repairs_store_at_noon :
  ∃ st, constructor noon emptyWorld = Ok st
    ∧ (∀ e', constructor e' (world st) = Throw "SyntaxError")
    ∧ ∀ e', ∃ loaded,
        constructor e' (world (addTask (laterThat noon 1000) plainDraft st))
        = Ok loaded
        ∧ tasks loaded
          = demoOrders (now noon) ++ [newTask (laterThat noon 1000) plainDraft].
Proof.
  apply (first_add_repairs_store noon (laterThat noon 1000) emptyWorld plainDraft);
    reflexivity.
Defined.

(** ** ClearAll *)



(** ** Editing through the prompt *)

Lemma spread_namePatch (n : string) (task : Task) :
  spread task (namePatch n) = set_name n task.
Proof. reflexivity. Qed.

Lemma editTask_found (e : Env) (taskId : Z) (p : TaskPatch) (st : State)
  (i : nat) (task : Task) :
  findById taskId (tasks st) = Some (i, task) →
  tasks (editTask e taskId p st) = <[i := spread task p]> (tasks st).
Proof. intros Hfind. unfold editTask. by rewrite Hfind. Qed.

Lemma editTask_absent (e : Env) (taskId : Z) (p : TaskPatch) (st : State) :
  taskId ∉ ids st → editTask e taskId p st = st.
Proof.
  intros Habsent%findById_None. unfold editTask. by rewrite Habsent.
Qed.

Lemma markAsCompleted_absent (e : Env) (taskId : Z) (st : State) :
  taskId ∉ ids st → markAsCompleted e taskId st = st.
Proof.
  intros Habsent%findById_None. unfold markAsCompleted. by rewrite Habsent.
Qed.

Lemma handleEdit_absent (e : Env) (answer : option string) (taskId : Z)
  (st : State) :
  taskId ∉ ids st → handleEdit e answer taskId st = st.
Proof.
  intros Habsent%findById_None. unfold handleEdit. by rewrite Habsent.
Qed.

Lemma insert_same_projection {A B : Type} (f : A → B) (l : list A) (i : nat)
  (x y : A) :
  l !! i = Some x → f y = f x → f <$> <[i := y]> l = f <$> l.
Proof.
  intros Hi Hf. rewrite list_fmap_insert, Hf.
  apply list_insert_id. by rewrite list_lookup_fmap, Hi.
Qed.

(** The edit button can only rename: [handleEdit] either leaves the whole
    state as it is (cancelled, blank, or the name typed is the name the order
    has) or gives the first order with that identifier the trimmed answer as
    its name.  Identifiers, statuses, due and completion timestamps of all
    orders stay as they are. *)
Theorem handleEdit_renames_only (e : Env) (answer : option string) (taskId : Z)
  (st : State) :
  (handleEdit e answer taskId st = st
   ∨ ∃ i task newName,
       answer = Some newName
       ∧ findById taskId (tasks st) = Some (i, task)
       ∧ JsString.trim newName ≠ ""
       ∧ newName ≠ name task
       ∧ tasks (handleEdit e answer taskId st)
         = <[i := set_name (JsString.trim newName) task]> (tasks st))
  ∧ ids (handleEdit e answer taskId st) = ids st
  ∧ status <$> tasks (handleEdit e answer taskId st) = status <$> tasks st
  ∧ due <$> tasks (handleEdit e answer taskId st) = due <$> tasks st
  ∧ completedAt <$> tasks (handleEdit e answer taskId st)
    = completedAt <$> tasks st
  ∧ handleEdit e None taskId st = st
  ∧ handleEdit e (Some "   ") taskId st = st.
Proof.
  assert (Hcancel : ∀ blank, JsString.trim blank = "" →
            handleEdit e None taskId st = st
            ∧ handleEdit e (Some blank) taskId st = st).
  { intros blank Hblank. unfold handleEdit.
    destruct (findById taskId (tasks st)) as [[i task]|]; [|done].
    rewrite Hblank. simpl. by rewrite andb_false_r. }
  unfold handleEdit at 1 2 3 4 5 6.
  destruct (findById taskId (tasks st)) as [[i task]|] eqn:Hfind;
    [|by destruct (Hcancel "   " eq_refl); auto 10].
  destruct answer as [newName|];
    [|by destruct (Hcancel "   " eq_refl); auto 10].
  destruct (JsString.truthy newName && JsString.truthy (JsString.trim newName)
            && negb (String.eqb newName (name task))) eqn:Hguard;
    [|by destruct (Hcancel "   " eq_refl); auto 10].
  apply andb_true_iff in Hguard as [[_ Htrim]%andb_true_iff Hnew].
  apply negb_true_iff, String.eqb_neq in Hnew. unfold ids.
  rewrite (editTask_found e taskId _ st i task Hfind), spread_namePatch.
  pose proof Hfind as (Hi & _ & _)%findById_Some.
  split.
  { right. exists i, task, newName. repeat split; try done.
    intros Hempty. by rewrite Hempty in Htrim. }
  rewrite !(insert_same_projection _ (tasks st) i task) by done.
  destruct (Hcancel "   " eq_refl). auto 10.
Qed.

(** ** Delete, composed with the other operations *)

Lemma deleteTask_ids_absent (e : Env) (taskId : Z) (st : State) :
  confirmed e = true → taskId ∉ ids (deleteTask e taskId st).
Proof.
  intros Hc. unfold ids. rewrite (deleteTask_tasks e taskId st Hc).
  intros (task & Hid & [Hne _]%list_elem_of_filter)%list_elem_of_fmap.
  by apply Hne.
Qed.

(** After a confirmed Delete(id) no order carries id, whatever the
    collection was: completing or editing id then changes nothing at all,
    and deleting it again leaves the collection as it is. *)
Theorem deleteTask_then_absent (e : Env) (taskId : Z) (st : State) :
  confirmed e = true →
  (taskId ∉ ids (deleteTask e taskId st))
  ∧ ∀ e' updatedData answer,
      markAsCompleted e' taskId (deleteTask e taskId st) = deleteTask e taskId st
      ∧ editTask e' taskId updatedData (deleteTask e taskId st)
        = deleteTask e taskId st
      ∧ handleEdit e' answer taskId (deleteTask e taskId st)
        = deleteTask e taskId st
      ∧ tasks (deleteTask e' taskId (deleteTask e taskId st))
        = tasks (deleteTask e taskId st).
Proof.
  intros Hc. pose proof (deleteTask_ids_absent e taskId st Hc) as Habsent.
  split; [done|]. intros e' updatedData answer.
  split; [by apply markAsCompleted_absent|].
  split; [by apply editTask_absent|].
  split; [by apply handleEdit_absent|].
  unfold deleteTask at 1. destruct (confirmed e'); [|done]. simpl.
  apply filter_all, Forall_forall. intros task Hin Hid. subst taskId.
  apply Habsent. by apply list_elem_of_fmap_2.
Qed.

Lemma deleteTask_then_absent_demo :
  (1003 ∉ ids (deleteTask noon 1003 demoState))
  ∧ ∀ e' updatedData answer,
      markAsCompleted e' 1003 (deleteTask noon 1003 demoState)
      = deleteTask noon 1003 demoState
      ∧ editTask e' 1003 updatedData (deleteTask noon 1003 demoState)
        = deleteTask noon 1003 demoState
      ∧ handleEdit e' answer 1003 (deleteTask noon 1003 demoState)
        = deleteTask noon 1003 demoState
      ∧ tasks (deleteTask e' 1003 (deleteTask noon 1003 demoState))
        = tasks (deleteTask noon 1003 demoState).
Proof. apply (deleteTask_then_absent noon 1003 demoState). reflexivity. Defined.

(** Deleting the order just added, under a fresh identifier, gives the
    collection back as it was. *)
Theorem addTask_then_deleteTask (e e' : Env) (taskData : TaskData) (st : State) :
  now e ∉ ids st →
  confirmed e' = true →
  tasks (deleteTask e' (now e) (addTask e taskData st)) = tasks st.
Proof.
  intros Hfresh Hc. rewrite (deleteTask_tasks e' _ _ Hc), addTask_tasks.
  rewrite filter_app, filter_cons_False by (intros Hne; by apply Hne).
  rewrite filter_nil, app_nil_r. apply filter_all, Forall_forall.
  intros task Hin Hid. apply Hfresh. rewrite <- Hid.
  by apply list_elem_of_fmap_2.
Qed.

Lemma addTask_then_deleteTask_demo :
  tasks (deleteTask (laterThat noon 5000) (now noon)
           (addTask noon plainDraft demoState))
  = tasks demoState.
Proof.
  apply (addTask_then_deleteTask noon (laterThat noon 5000) plainDraft demoState).
  - apply (bool_decide_unpack (now noon ∉ ids demoState)). by vm_compute.
  - reflexivity.
Defined.

(** ** The form *)

(** Submitting the form adds the order unless the name is blank or the due
    instant is before now, and then nothing changes at all; a due instant
    equal to now passes. *)
Theorem submitOrder_rejects (e : Env) (taskData : TaskData) (st : State) :
  submitOrder e taskData st
  = (if decide (JsString.trim (data_name taskData) = ""
                ∨ data_due taskData < now e)
     then st else addTask e taskData st)
  ∧ submitOrder e (mkTaskData "   " None (now e + minutes 30) None) st = st
  ∧ submitOrder e (mkTaskData "Margherita" None (now e - 1) None) st = st
  ∧ submitOrder e (mkTaskData "Margherita" None (now e) None) st
    = addTask e (mkTaskData "Margherita" None (now e) None) st.
Proof.
  assert (Hgen : ∀ d, submitOrder e d st
            = (if decide (JsString.trim (data_name d) = "" ∨ data_due d < now e)
               then st else addTask e d st)).
  { intros d. unfold submitOrder, validateOrderForm, validateName, validateDue.
    destruct (decide _) as [[Hn|Hd]|Hno].
    - by rewrite Hn.
    - destruct (JsString.truthy _); simpl; [|done].
      destruct (Z.ltb_spec (data_due d) (now e)); [done|lia].
    - destruct (JsString.trim (data_name d)); [exfalso; apply Hno; by left|].
      simpl. destruct (Z.ltb_spec (data_due d) (now e)); [|done].
      exfalso. apply Hno. by right. }
  split; [apply Hgen|]. rewrite !Hgen.
  split; [by rewrite decide_True by (by left)|].
  split; [by rewrite decide_True by (right; simpl; lia)|].
  rewrite decide_False; [done|]. simpl. intros [?|?]; [done|lia].
Qed.

(** ** The counters of the summary *)

Lemma count_insert {A : Type} (P : A → Prop) `{!∀ x, Decision (P x)}
  (l : list A) (i : nat) (x y : A) :
  l !! i = Some x →
  (length (filter P (<[i := y]> l)) + (if decide (P x) then 1 else 0)
   = length (filter P l) + (if decide (P y) then 1 else 0))%nat.
Proof.
  intros Hi. rewrite insert_take_drop by (by eapply lookup_lt_Some).
  rewrite <- (take_drop_middle l i x Hi) at 3.
  rewrite !filter_app, !filter_cons, !length_app.
  repeat case_decide; simpl; lia.
Qed.

Lemma count_split (ts : list Task) :
  (length (filter (λ t, status t = "pending") ts)
   + length (filter (λ t, status t = "completed") ts)
   + length (filter (λ t, status t ≠ "pending" ∧ status t ≠ "completed") ts)
   = length ts)%nat.
Proof.
  induction ts as [|task ts IH]; [done|]. rewrite !filter_cons.
  repeat case_decide; simpl; try lia; try tauto;
    match goal with H1 : status task = _, H2 : status task = _ |- _ =>
      rewrite H1 in H2; discriminate end.
Qed.

(** The three counters of the summary: pending, completed and the orders of
    any other status add up to the total; adding an order raises total and
    pending by one. *)
Theorem orderSummary_counts (e : Env) (taskData : TaskData) (st : State) :
  ((orderSummary st).1.2 + (orderSummary st).2
   + length (filter (λ t, status t ≠ "pending" ∧ status t ≠ "completed")
               (tasks st))
   = (orderSummary st).1.1)%nat
  ∧ orderSummary (addTask e taskData st)
    = (S (orderSummary st).1.1, S (orderSummary st).1.2, (orderSummary st).2).
Proof.
  split; [apply count_split|]. unfold orderSummary.
  rewrite addTask_tasks, !filter_app, !length_app. simpl.
  repeat f_equal; lia.
Qed.

(** Completing a pending order moves one unit from the pending counter to
    the completed counter and leaves the total. *)
Theorem orderSummary_after_complete (e : Env) (taskId : Z) (st : State)
  (i : nat) (task : Task) :
  findById taskId (tasks st) = Some (i, task) →
  status task = "pending" →
  (orderSummary (markAsCompleted e taskId st)).1.1 = (orderSummary st).1.1
  ∧ S (orderSummary (markAsCompleted e taskId st)).1.2 = (orderSummary st).1.2
  ∧ (orderSummary (markAsCompleted e taskId st)).2 = S (orderSummary st).2.
Proof.
  intros Hfind Hp. unfold orderSummary. simpl.
  rewrite markAsCompleted_tasks. unfold completeIn. rewrite Hfind.
  rewrite decide_True by (by rewrite Hp).
  pose proof Hfind as (Hi & _ & _)%findById_Some.
  pose proof (count_insert (λ t, status t = "pending") (tasks st) i task
                (set_completed (now e) task) Hi) as Hpending.
  pose proof (count_insert (λ t, status t = "completed") (tasks st) i task
                (set_completed (now e) task) Hi) as Hcompleted.
  rewrite decide_True, decide_False in Hpending by done.
  rewrite decide_False, decide_True in Hcompleted by (by rewrite ?Hp).
  rewrite length_insert. lia.
Qed.

Lemma orderSummary_after_complete_demo :
  (orderSummary (markAsCompleted noon 1004 demoState)).1.1
  = (orderSummary demoState).1.1
  ∧ S (orderSummary (markAsCompleted noon 1004 demoState)).1.2
    = (orderSummary demoState).1.2
  ∧ (orderSummary (markAsCompleted noon 1004 demoState)).2
    = S (orderSummary demoState).2.
Proof.
  eapply (orderSummary_after_complete noon 1004 demoState); reflexivity.
Defined.

(** ** Completion timestamps *)

Lemma stamp_set_completed (t : Z) (task : Task) :
  stampMatchesStatus (set_completed t task).
Proof. unfold stampMatchesStatus. simpl. split; eauto. Qed.

Lemma stamp_newTask (e : Env) (taskData : TaskData) :
  stampMatchesStatus (newTask e taskData).
Proof.
  unfold stampMatchesStatus. simpl. split; [by intros [? ?]|done].
Qed.

Lemma stamp_demoOrders (t : Z) : Forall stampMatchesStatus (demoOrders t).
Proof.
  unfold demoOrders, stampMatchesStatus.
  repeat (constructor; [simpl; split; (done || eauto || by intros [? ?])|]).
  constructor.
Qed.

Lemma completeIn_Forall (P : Task → Prop) (t taskId : Z) (ts : list Task) :
  (∀ task, P (set_completed t task)) →
  Forall P ts → Forall P (completeIn t taskId ts).
Proof.
  intros Hset Hts. unfold completeIn.
  destruct (findById taskId ts) as [[i task]|]; [|done].
  destruct (decide (status task ≠ "completed")); [|done].
  by apply Forall_insert.
Qed.

Lemma sweepAll_Forall (P : Task → Prop) (e : Env) (ts : list Task) :
  (∀ task, P (set_completed (now e) task)) →
  Forall P ts → Forall P (sweepAll e ts).
Proof.
  intros Hset. unfold sweepAll. generalize (seq 0 (length ts)) as indices.
  intros indices. revert ts.
  induction indices as [|i indices IH]; intros ts Hts; simpl; [done|].
  apply IH. unfold sweepIn. destruct (ts !! i) as [task|]; [|done].
  destruct (decide (status task = "pending")); [|done].
  destruct (overdueByAnHour e task); [|done]. by apply completeIn_Forall.
Qed.

(** A completion timestamp is present exactly on the completed orders:
    this holds of the demo orders, and every command keeps it, Edit provided
    it carries neither a status nor a completion timestamp, as the edit
    button's rename does. *)
Theorem stamps_match_status (e : Env) (c : Command) (st : State) :
  Forall stampMatchesStatus (tasks st) →
  keepsStamps c →
  Forall stampMatchesStatus (tasks (run e c st))
  ∧ (∀ answer taskId,
       Forall stampMatchesStatus (tasks (handleEdit e answer taskId st)))
  ∧ ∀ t, Forall stampMatchesStatus (demoOrders t).
Proof.
  intros Hst Hkeep.
  assert (Hedit : ∀ taskId p,
            patch_status p = None → patch_completedAt p = None →
            Forall stampMatchesStatus (tasks (editTask e taskId p st))).
  { intros taskId p Hs Hc. unfold editTask.
    destruct (findById taskId (tasks st)) as [[i task]|] eqn:Hfind; [|done].
    simpl. apply Forall_insert; [done|].
    apply findById_Some in Hfind as (Hi & _ & _).
    apply list_elem_of_lookup_2 in Hi.
    rewrite Forall_forall in Hst. specialize (Hst task Hi).
    unfold stampMatchesStatus in *. simpl. by rewrite Hs, Hc. }
  split; [|split; [|apply stamp_demoOrders]].
  - destruct c as [taskData|taskId updatedData|taskId|taskId| |].
    + rewrite run_tasks. simpl. apply Forall_app. split; [done|].
      constructor; [apply stamp_newTask|constructor].
    + destruct Hkeep. by apply Hedit.
    + rewrite run_tasks. simpl.
      by apply completeIn_Forall; [apply stamp_set_completed|].
    + rewrite run_tasks. simpl. destruct (confirmed e); [|done].
      apply Forall_forall. intros task [_ Hin]%list_elem_of_filter.
      rewrite Forall_forall in Hst. by apply Hst.
    + rewrite run_tasks. simpl.
      destruct (decide (length (tasks st) = 0%nat)); [done|].
      destruct (confirmed e); [constructor|done].
    + rewrite run_tasks. simpl.
      by apply sweepAll_Forall; [intros; apply stamp_set_completed|].
  - intros answer taskId. unfold handleEdit.
    destruct (findById taskId (tasks st)) as [[i task]|]; [|done].
    destruct answer as [newName|]; [|done].
    destruct (_ && _); [|done]. by apply Hedit.
Qed.

Lemma stamps_match_status_demo :
  Forall stampMatchesStatus (tasks (run twoHoursLater Sweep demoState))
  ∧ (∀ answer taskId,
       Forall stampMatchesStatus
         (tasks (handleEdit twoHoursLater answer taskId demoState)))
  ∧ ∀ t, Forall stampMatchesStatus (demoOrders t).
Proof.
  apply (stamps_match_status twoHoursLater Sweep demoState).
  - apply stamp_demoOrders.
  - exact I.
Defined.

(** ** More on the sweep *)

Lemma sameOrCompletedAt_refl (t : Z) (ts : list Task) :
  Forall2 (sameOrCompletedAt t) ts ts.
Proof. induction ts; constructor; [by left|done]. Qed.

Lemma sameOrCompletedAt_insert (t : Z) (ts0 ts : list Task) (i : nat)
  (task : Task) :
  Forall2 (sameOrCompletedAt t) ts0 ts →
  ts !! i = Some task →
  status task ≠ "completed" →
  Forall2 (sameOrCompletedAt t) ts0 (<[i := set_completed t task]> ts).
Proof.
  intros Hrel. revert i.
  induction Hrel as [|before after ts0 ts Hhead Htail IH];
    intros i Hi Hstatus; [done|].
  destruct i as [|i]; simpl in *.
  - injection Hi as ->. constructor; [|done].
    destruct Hhead as [->|[-> _]]; [by right | by simpl in Hstatus].
  - constructor; [done | by apply IH].
Qed.

Lemma sameOrCompletedAt_completeIn (t taskId : Z) (ts0 ts : list Task) :
  Forall2 (sameOrCompletedAt t) ts0 ts →
  Forall2 (sameOrCompletedAt t) ts0 (completeIn t taskId ts).
Proof.
  intros Hrel. unfold completeIn.
  destruct (findById taskId ts) as [[i task]|] eqn:Hfind; [|done].
  destruct (decide (status task ≠ "completed")); [|done].
  apply findById_Some in Hfind as (Hi & _ & _).
  by apply sameOrCompletedAt_insert.
Qed.

(** Whatever the collection, identifiers repeated or not, a sweep keeps the
    orders in number, order and identifier, never touches a completed order,
    and changes an order in one way only: completing it at the sweep time. *)
Theorem updateTimers_only_completes (e : Env) (st : State) :
  Forall2 (sameOrCompletedAt (now e)) (tasks st) (tasks (updateTimers e st))
  ∧ ids (updateTimers e st) = ids st
  ∧ length (tasks (updateTimers e st)) = length (tasks st).
Proof.
  assert (Hrel : Forall2 (sameOrCompletedAt (now e)) (tasks st)
                   (sweepAll e (tasks st))).
  { unfold sweepAll. generalize (seq 0 (length (tasks st))) as indices.
    intros indices.
    cut (∀ ts, Forall2 (sameOrCompletedAt (now e)) (tasks st) ts →
               Forall2 (sameOrCompletedAt (now e)) (tasks st)
                 (foldl (λ ts i, sweepIn e i ts) ts indices)).
    { intros Hcut. apply Hcut, sameOrCompletedAt_refl. }
    induction indices as [|i indices IH]; intros ts Hts; simpl; [done|].
    apply IH. unfold sweepIn. destruct (ts !! i) as [task|]; [|done].
    destruct (decide (status task = "pending")); [|done].
    destruct (overdueByAnHour e task); [|done].
    by apply sameOrCompletedAt_completeIn. }
  unfold ids. rewrite updateTimers_tasks, sweepAll_ids.
  split; [done|]. split; [done|]. symmetry. by eapply Forall2_length.
Qed.

Lemma sweepAt_nothing_due (e : Env) (i : nat) (st : State) :
  Forall (λ task, status task = "pending" → now e ≤ due task + minutes 60)
    (tasks st) →
  sweepAt e i st = st.
Proof.
  intros Hall. unfold sweepAt.
  destruct (tasks st !! i) as [task|] eqn:Hi; [|done].
  destruct (decide (status task = "pending")) as [Hp|]; [|done].
  destruct (overdueByAnHour e task) eqn:Hover; [|done].
  apply overdueByAnHour_spec in Hover.
  rewrite Forall_forall in Hall.
  specialize (Hall task (list_elem_of_lookup_2 _ _ _ Hi) Hp). lia.
Qed.

(** A sweep that finds no pending order more than an hour overdue changes
    nothing: no order, no write to the store, no notification. *)
Theorem updateTimers_nothing_due (e : Env) (st : State) :
  Forall (λ task, status task = "pending" → now e ≤ due task + minutes 60)
    (tasks st) →
  updateTimers e st = st.
Proof.
  intros Hall. unfold updateTimers.
  induction (seq 0 (length (tasks st))) as [|i indices IH]; simpl; [done|].
  by rewrite sweepAt_nothing_due.
Qed.

Lemma updateTimers_nothing_due_demo :
  updateTimers (laterThat noon (minutes 50)) demoState = demoState.
Proof.
  apply (updateTimers_nothing_due (laterThat noon (minutes 50)) demoState).
  apply (bool_decide_unpack
           (Forall (λ task, status task = "pending" →
                            now (laterThat noon (minutes 50))
                            ≤ due task + minutes 60)
              (tasks demoState))).
  by vm_compute.
Defined.

(** ** Sorting by the other keys, and the rows drawn *)

Lemma sort_insert_ext {A : Type} (compare compare' : A → A → Z) (x : A)
  (l : list A) :
  (∀ y, y ∈ l → compare x y = compare' x y) →
  sort_insert compare x l = sort_insert compare' x l.
Proof.
  induction l as [|y l IH]; intros Hsame; simpl; [done|].
  rewrite (Hsame y) by left. rewrite IH; [done|].
  intros z Hz. apply Hsame. by right.
Qed.

(** The sort depends on the comparator only through its values on the
    elements of the array. *)
Lemma Array_sort_ext {A : Type} (compare compare' : A → A → Z) (l : list A) :
  (∀ x y, x ∈ l → y ∈ l → compare x y = compare' x y) →
  Array_sort compare l = Array_sort compare' l.
Proof.
  induction l as [|x l IH]; intros Hsame; simpl; [done|].
  rewrite IH by (intros y z Hy Hz; apply Hsame; by right).
  apply sort_insert_ext. intros y Hy. apply Hsame; [left|right].
  by rewrite <- (Array_sort_perm compare' l).
Qed.

Lemma StronglySorted_weaken {A : Type} (R R' : A → A → Prop) (l : list A) :
  (∀ a b, R a b → R' a b) → StronglySorted R l → StronglySorted R' l.
Proof.
  intros Himpl. induction 1 as [|x l Hl IH Hx]; constructor; [done|].
  eapply Forall_impl; [exact Hx|]. intros y. apply Himpl.
Qed.

Lemma compareTasks_priority_known (localeCompare : string → string → Z)
  (a b : Task) :
  knownPriority a → knownPriority b →
  compareTasks localeCompare "priority" a b = rank b - rank a.
Proof.
  intros [pa Ha] [pb Hb]. unfold rank.
  change (compareTasks localeCompare "priority" a b)
    with (match priorityOrder (priority b), priorityOrder (priority a) with
          | Some pb, Some pa => pb - pa
          | _, _ => 0
          end).
  by rewrite Ha, Hb.
Qed.

(** Sorting by priority, when every order has one of the priorities high,
    medium and low: a permutation, ranks never increasing from one row to
    the next (high, then medium, then low), and the orders of one priority
    in the order they had. *)
Theorem sortTasks_priority (localeCompare : string → string → Z)
  (ts : list Task) :
  Forall knownPriority ts →
  sortTasks localeCompare "priority" ts ≡ₚ ts
  ∧ Sorted (λ a b, rank b ≤ rank a) (sortTasks localeCompare "priority" ts)
  ∧ ∀ r, filter (λ task, rank task = r) (sortTasks localeCompare "priority" ts)
         = filter (λ task, rank task = r) ts.
Proof.
  intros Hknown. unfold sortTasks. split; [apply Array_sort_perm|].
  rewrite (Array_sort_ext _ (λ a b, rank b - rank a) ts).
  2:{ rewrite Forall_forall in Hknown. intros a b Ha Hb.
      apply compareTasks_priority_known; by apply Hknown. }
  assert (Hkey : ∀ a b : Task, rank b - rank a ≤ 0 ↔ - rank a ≤ - rank b)
    by (intros; lia).
  split.
  - apply StronglySorted_Sorted.
    eapply StronglySorted_weaken;
      [|exact (Array_sort_sorted (λ a, - rank a) _ Hkey ts)].
    simpl. intros a b. lia.
  - intros r.
    rewrite (list_filter_iff (λ task, rank task = r) (λ task, - rank task = - r))
      by (intros; lia).
    rewrite (list_filter_iff (λ task, rank task = r) (λ task, - rank task = - r) ts)
      by (intros; lia).
    exact (Array_sort_stable (λ a, - rank a) _ Hkey (- r) ts).
Qed.

Lemma sortTasks_priority_demo :
  sortTasks sampleCollation "priority" (demoOrders (now noon))
  ≡ₚ demoOrders (now noon)
  ∧ Sorted (λ a b, rank b ≤ rank a)
      (sortTasks sampleCollation "priority" (demoOrders (now noon)))
  ∧ ∀ r, filter (λ task, rank task = r)
           (sortTasks sampleCollation "priority" (demoOrders (now noon)))
         = filter (λ task, rank task = r) (demoOrders (now noon)).
Proof.
  apply (sortTasks_priority sampleCollation (demoOrders (now noon))).
  repeat (constructor; [by eexists|]). constructor.
Defined.

Example sortTasks_priority_rows :
  id <$> sortTasks sampleCollation "priority" (demoOrders (now noon))
  = [1001; 1005; 1006; 1002; 1004; 1007; 1003; 1008].
Proof. reflexivity. Qed.

(** Whatever the sort key and the collation, the rows drawn are the
    filtered orders, each once; under the pending filter (and likewise the
    completed one) every row is pending and the number of rows is the pending
    counter of the summary. *)
Theorem view_shows_filtered (localeCompare : string → string → Z)
  (ts : list Task) (key criterion : string) (w : World) :
  view localeCompare (mkState ts criterion key w) ≡ₚ filterTasks criterion ts
  ∧ sortTasks localeCompare key ts ≡ₚ ts
  ∧ Forall (λ task, status task = "pending")
      (view localeCompare (mkState ts "pending" key w))
  ∧ length (view localeCompare (mkState ts "pending" key w))
    = (orderSummary (mkState ts "pending" key w)).1.2
  ∧ Forall (λ task, status task = "completed")
      (view localeCompare (mkState ts "completed" key w))
  ∧ length (view localeCompare (mkState ts "completed" key w))
    = (orderSummary (mkState ts "completed" key w)).2.
Proof.
  assert (Hview : ∀ c, view localeCompare (mkState ts c key w) ≡ₚ filterTasks c ts).
  { intros c. unfold view, sortTasks. simpl. apply Array_sort_perm. }
  split; [apply Hview|]. split; [apply Array_sort_perm|].
  split; [|split; [|split]].
  - rewrite (Hview "pending"). apply Forall_forall.
    by intros task [Hs _]%list_elem_of_filter.
  - by rewrite (Hview "pending").
  - rewrite (Hview "completed"). apply Forall_forall.
    by intros task [Hs _]%list_elem_of_filter.
  - by rewrite (Hview "completed").
Qed.

(** ** The timer cell *)

(** What the timer cell says: Delivered exactly for completed orders;
    otherwise, at or past the due instant, the minutes overdue rounded up
    (one millisecond late reads 1m, the due instant itself 0m); before it,
    the time left rounded down to the minute, with the hours shown from one
    hour on and the minutes below sixty. *)
Theorem createTimerDisplay_reads (task : Task) (timeDiff : Z) :
  match createTimerDisplay task timeDiff with
  | Delivered => status task = "completed"
  | Overdue m =>
      status task ≠ "completed" ∧ timeDiff ≤ 0 ∧ 0 ≤ m
      ∧ (m - 1) * 60000 < - timeDiff ≤ m * 60000
  | HoursMinutes h m =>
      status task ≠ "completed" ∧ 1 ≤ h ∧ 0 ≤ m < 60
      ∧ (h * 60 + m) * 60000 ≤ timeDiff < (h * 60 + m + 1) * 60000
  | Minutes m =>
      status task ≠ "completed" ∧ 0 < timeDiff ∧ 0 ≤ m < 60
      ∧ m * 60000 ≤ timeDiff < (m + 1) * 60000
  end.
Proof.
  unfold createTimerDisplay.
  destruct (decide (status task = "completed")) as [|Hs]; [done|].
  change (1000 * 60 * 60) with 3600000. change (1000 * 60) with 60000.
  pose proof (Z.div_mod timeDiff 60000 ltac:(lia)) as Hmin.
  pose proof (Z.mod_pos_bound timeDiff 60000 ltac:(lia)) as Hminb.
  destruct (Z.leb_spec timeDiff 0) as [Hle|Hgt].
  - repeat split; try done; lia.
  - pose proof (Z.div_mod timeDiff 3600000 ltac:(lia)) as Hh.
    pose proof (Z.mod_pos_bound timeDiff 3600000 ltac:(lia)) as Hhb.
    pose proof (Z.div_mod (timeDiff mod 3600000) 60000 ltac:(lia)) as Hm.
    pose proof (Z.mod_pos_bound (timeDiff mod 3600000) 60000 ltac:(lia)) as Hmb.
    assert (0 ≤ timeDiff / 3600000) by (apply Z.div_pos; lia).
    assert (0 ≤ timeDiff mod 3600000 / 60000) by (apply Z.div_pos; lia).
    destruct (Z.ltb_spec 0 (timeDiff / 3600000)); repeat split; try done; lia.
Qed.

(** The test of the sweep and the timer cell, at one instant. *)
Lemma overdueByAnHour_timer (e : Env) (task : Task) :
  status task = "pending" →
  (overdueByAnHour e task = true
   ↔ ∃ m, rowTimer e task = Overdue m ∧ 61 ≤ m)
  ∧ (isOverdue e task = true ↔ ∃ m, rowTimer e task = Overdue m).
Proof.
  intros Hp. rewrite overdueByAnHour_spec.
  unfold rowTimer, isOverdue, createTimerDisplay, minutes.
  rewrite Hp. simpl. rewrite andb_true_r, Z.leb_le.
  change (1000 * 60 * 60) with 3600000. change (1000 * 60) with 60000.
  pose proof (Z.div_mod (due task - now e) 60000 ltac:(lia)) as Hmin.
  pose proof (Z.mod_pos_bound (due task - now e) 60000 ltac:(lia)) as Hminb.
  destruct (Z.leb_spec (due task - now e) 0) as [Hle|Hgt].
  - split; split.
    + intros Hlate. eexists. split; [done|]. lia.
    + intros (m & [= <-] & Hm). lia.
    + intros _. by eexists.
    + done.
  - destruct (0 <? (due task - now e) / 3600000); split; split;
      first [lia | by intros (m & ? & ?) | by intros (m & ?)].
Qed.

(** Over a collection with pairwise distinct identifiers the sweep and the
    rows agree: a sweep leaves a pending order completed exactly when its
    timer cell, drawn at the instant of the sweep, reads at least Overdue
    61m; and its row is painted overdue exactly when the cell reads
    Overdue. *)
Theorem sweep_and_timer_agree (e : Env) (st : State) (i : nat) (task : Task) :
  NoDup (ids st) →
  tasks st !! i = Some task →
  status task = "pending" →
  (status <$> tasks (updateTimers e st) !! i = Some "completed"
   ↔ ∃ m, rowTimer e task = Overdue m ∧ 61 ≤ m)
  ∧ (isOverdue e task = true ↔ ∃ m, rowTimer e task = Overdue m).
Proof.
  intros Hnd Hi Hp.
  destruct (overdueByAnHour_timer e task Hp) as [Htest Hrow].
  split; [|done]. rewrite <- Htest, overdueByAnHour_spec.
  rewrite updateTimers_tasks, (sweepAll_unique e _ Hnd).
  rewrite list_lookup_fmap, Hi. simpl. unfold sweepOne.
  destruct (decide (status task = "pending" ∧ due task + minutes 60 < now e))
    as [[_ Hlate]|Hnot]; simpl.
  - done.
  - rewrite Hp. split; [done|]. intros Hlate. destruct Hnot. done.
Qed.

Lemma sweep_and_timer_agree_demo :
  (status <$> tasks (updateTimers twoHoursLater demoState) !! 3%nat
   = Some "completed"
   ↔ ∃ m, rowTimer twoHoursLater
            (mkTask 1004 "2x Veggie Supreme Pizzas"
               "One with gluten-free crust, extra vegetables"
               (now noon - minutes 10) "medium" "pending"
               (now noon - minutes 45) None (Some "Kifisia"))
          = Overdue m ∧ 61 ≤ m)
  ∧ (isOverdue twoHoursLater
       (mkTask 1004 "2x Veggie Supreme Pizzas"
          "One with gluten-free crust, extra vegetables"
          (now noon - minutes 10) "medium" "pending"
          (now noon - minutes 45) None (Some "Kifisia")) = true
     ↔ ∃ m, rowTimer twoHoursLater
              (mkTask 1004 "2x Veggie Supreme Pizzas"
                 "One with gluten-free crust, extra vegetables"
                 (now noon - minutes 10) "medium" "pending"
                 (now noon - minutes 45) None (Some "Kifisia"))
            = Overdue m).
Proof.
  apply (sweep_and_timer_agree twoHoursLater demoState 3
           (mkTask 1004 "2x Veggie Supreme Pizzas"
              "One with gluten-free crust, extra vegetables"
              (now noon - minutes 10) "medium" "pending"
              (now noon - minutes 45) None (Some "Kifisia"))).
  - apply (bool_decide_unpack (NoDup (ids demoState))). by vm_compute.
  - reflexivity.
  - reflexivity.
Defined.

(** ** The default due date *)

(** The due date the form proposes is written from the UTC clock and read
    back on the local clock.  It passes the form's own check exactly when
    the local clock is less than about half an hour ahead of UTC: on a clock
    two or three hours ahead (Athens, winter and summer) the proposed date is
    always rejected as past, on the UTC clock it is always accepted, and west
    of Greenwich it is accepted and due later than thirty minutes from now. *)
Theorem setDefaultDueDate_read_locally (utcOffset : Z) (e : Env) :
  validateDue e (parseLocalDateTime utcOffset (setDefaultDueDate e))
  = bool_decide (utcOffset + (now e + minutes 30) mod 60000 ≤ minutes 30)
  ∧ validateDue e (parseLocalDateTime (minutes 120) (setDefaultDueDate e)) = false
  ∧ validateDue e (parseLocalDateTime (minutes 180) (setDefaultDueDate e)) = false
  ∧ validateDue e (parseLocalDateTime 0 (setDefaultDueDate e)) = true
  ∧ parseLocalDateTime (- minutes 300) (setDefaultDueDate e)
    > now e + minutes 30 + minutes 299.
Proof.
  assert (Hgen : ∀ off,
            validateDue e (parseLocalDateTime off (setDefaultDueDate e))
            = bool_decide (off + (now e + minutes 30) mod 60000 ≤ minutes 30)).
  { intros off.
    unfold validateDue, parseLocalDateTime, setDefaultDueDate, toISOString_slice16.
    destruct (Z.ltb_spec (now e + minutes 30 - (now e + minutes 30) mod 60000 - off)
                (now e)); simpl.
    - rewrite bool_decide_eq_false_2; [done|]. lia.
    - rewrite bool_decide_eq_true_2; [done|]. lia. }
  pose proof (Z.mod_pos_bound (now e + minutes 30) 60000 ltac:(lia)) as Hb.
  split; [apply Hgen|]. rewrite !Hgen.
  unfold parseLocalDateTime, setDefaultDueDate, toISOString_slice16, minutes in *.
  split; [rewrite bool_decide_eq_false_2; [done|lia]|].
  split; [rewrite bool_decide_eq_false_2; [done|lia]|].
  split; [rewrite bool_decide_eq_true_2; [done|lia]|]. lia.
Qed.

(** ** The dashboard *)

Lemma count_as_summary (st : State) :
  statusChartData (tasks st) = ((orderSummary st).1.2, (orderSummary st).2).
Proof. reflexivity. Qed.

(** After a write that goes through, the dashboard loads exactly the
    collection the order page holds, and its status chart shows the pending
    and completed counters of the page's summary. *)
Theorem dashboard_reads_saved_orders (e : Env) (sampleData : list Task)
  (st : State) :
  quotaExceeded e = false →
  loadData sampleData (world (saveTasks e st)) = Ok (tasks st)
  ∧ statusChartData (tasks st) = ((orderSummary st).1.2, (orderSummary st).2).
Proof.
  intros Hq. split; [|reflexivity]. unfold loadData.
  by rewrite (saveTasks_ok e st Hq).
Qed.

Lemma dashboard_reads_saved_orders_demo :
  loadData [] (world (saveTasks noon demoState)) = Ok (tasks demoState)
  ∧ statusChartData (tasks demoState)
    = ((orderSummary demoState).1.2, (orderSummary demoState).2).
Proof. apply (dashboard_reads_saved_orders noon [] demoState). reflexivity. Defined.

(** With no entry in the store the dashboard shows its sample data; once
    the order page has been opened on that store, and until an order is
    written, the dashboard cannot load: parsing the stored text throws. *)
Theorem dashboard_after_first_visit (e : Env) (sampleData : list Task)
  (w : World) :
  getItem "pizzaOrders" w = None →
  quotaExceeded e = false →
  loadData sampleData w = Ok sampleData
  ∧ ∃ st, constructor e w = Ok st
      ∧ loadData sampleData (world st) = Throw "SyntaxError".
Proof.
  intros Hnone Hq. split; [unfold loadData; by rewrite Hnone|].
  eexists. split; [by apply constructor_fresh|].
  unfold loadData. simpl. by rewrite (saveTasks_of_undefined e w Hq).
Qed.

Lemma dashboard_after_first_visit_at_noon :
  loadData [] emptyWorld = Ok []
  ∧ ∃ st, constructor noon emptyWorld = Ok st
      ∧ loadData [] (world st) = Throw "SyntaxError".
Proof.
  apply (dashboard_after_first_visit noon [] emptyWorld); reflexivity.
Defined.

(** ** The countdown *)

(** The countdown reads Expired from the target instant on.  Before it,
    days, hours, minutes and seconds are the time left rounded down to the
    second, each within its range. *)
Theorem updateCountdown_reads (diff : Z) :
  match updateCountdown diff with
  | Expired => diff ≤ 0
  | TimeLeft d h m s =>
      0 < diff ∧ 0 ≤ d ∧ 0 ≤ h < 24 ∧ 0 ≤ m < 60 ∧ 0 ≤ s < 60
      ∧ (((d * 24 + h) * 60 + m) * 60 + s) * 1000 ≤ diff
      ∧ diff < (((d * 24 + h) * 60 + m) * 60 + s + 1) * 1000
  end.
Proof.
  unfold updateCountdown. destruct (Z.leb_spec diff 0) as [Hle|Hgt]; [done|].
  change (1000 * 60 * 60 * 24) with 86400000.
  change (1000 * 60 * 60) with 3600000. change (1000 * 60) with 60000.
  pose proof (Z.div_mod diff 86400000 ltac:(lia)) as Hd.
  pose proof (Z.mod_pos_bound diff 86400000 ltac:(lia)) as Hdb.
  pose proof (Z.div_mod (diff mod 86400000) 3600000 ltac:(lia)) as Hh.
  pose proof (Z.mod_pos_bound (diff mod 86400000) 3600000 ltac:(lia)) as Hhb.
  pose proof (Z.div_mod diff 3600000 ltac:(lia)) as Hh'.
  pose proof (Z.mod_pos_bound diff 3600000 ltac:(lia)) as Hhb'.
  pose proof (Z.div_mod (diff mod 3600000) 60000 ltac:(lia)) as Hm.
  pose proof (Z.mod_pos_bound (diff mod 3600000) 60000 ltac:(lia)) as Hmb.
  pose proof (Z.div_mod diff 60000 ltac:(lia)) as Hm'.
  pose proof (Z.mod_pos_bound diff 60000 ltac:(lia)) as Hmb'.
  pose proof (Z.div_mod (diff mod 60000) 1000 ltac:(lia)) as Hs.
  pose proof (Z.mod_pos_bound (diff mod 60000) 1000 ltac:(lia)) as Hsb.
  assert (0 ≤ diff / 86400000) by (apply Z.div_pos; lia).
  assert (0 ≤ diff mod 86400000 / 3600000) by (apply Z.div_pos; lia).
  assert (0 ≤ diff mod 3600000 / 60000) by (apply Z.div_pos; lia).
  assert (0 ≤ diff mod 60000 / 1000) by (apply Z.div_pos; lia).
  assert (Hmod1 : diff mod 3600000 = (diff mod 86400000) mod 3600000).
  { symmetry. apply Z.mod_mod_divide. by exists 24. }
  assert (Hmod2 : diff mod 60000 = (diff mod 3600000) mod 60000).
  { symmetry. apply Z.mod_mod_divide. by exists 60. }
  repeat split; try done; lia.
Qed.

Example updateCountdown_demo :
  updateCountdown 500000123 = TimeLeft 5 18 53 20
  ∧ updateCountdown 999 = TimeLeft 0 0 0 0
  ∧ updateCountdown 0 = Expired.
Proof. repeat split. Qed.

(** ** Sorting what is sorted *)

Lemma Array_sort_of_sorted {A : Type} (key : A → Z) (compare : A → A → Z)
  (l : list A) :
  (∀ a b, compare a b ≤ 0 ↔ key a ≤ key b) →
  StronglySorted (λ a b, key a ≤ key b) l →
  Array_sort compare l = l.
Proof.
  intros Hkey. induction 1 as [|x l Hl IH Hx]; simpl; [done|].
  rewrite IH. destruct l as [|y l]; simpl; [done|].
  apply Forall_cons in Hx as [Hxy _]. apply Hkey in Hxy.
  by destruct (Z.leb_spec (compare x y) 0); [|lia].
Qed.

(** Sorting by due date a second time changes nothing, and neither does
    sorting a collection that is already in due order: the rows never move
    without cause. *)
Theorem sortTasks_due_idempotent (localeCompare : string → string → Z)
  (ts : list Task) :
  sortTasks localeCompare "due" (sortTasks localeCompare "due" ts)
  = sortTasks localeCompare "due" ts
  ∧ (sortTasks localeCompare "due" ts = ts
     ↔ Sorted (λ a b, due a ≤ due b) ts).
Proof.
  assert (Hkey : ∀ a b, compareTasks localeCompare "due" a b ≤ 0 ↔ due a ≤ due b).
  { intros a b. change (compareTasks localeCompare "due" a b) with (due a - due b).
    lia. }
  assert (Htrans : Transitive (λ a b : Task, due a ≤ due b)).
  { intros a b c. lia. }
  unfold sortTasks. split.
  - apply (Array_sort_of_sorted due); [done|]. by apply Array_sort_sorted.
  - split.
    + intros <-. apply StronglySorted_Sorted. by apply Array_sort_sorted.
    + intros Hsorted. apply (Array_sort_of_sorted due); [done|].
      by apply Sorted_StronglySorted.
Qed.

(** ** White space beyond ASCII *)

(** A no-break space is trimmed from a stored name, makes a name blank for
    the form, and is no answer for the edit button. *)
Example addTask_trims_noBreakSpace (e : Env) (st : State) :
  name <$> last (tasks (addTask e
                  (mkTaskData (noBreakSpace +:+ "Margherita " +:+ noBreakSpace)
                     None (now e) None) st))
  = Some "Margherita".
Proof. by rewrite addTask_tasks, last_snoc. Qed.

Example submitOrder_noBreakSpace (e : Env) (st : State) :
  validateName noBreakSpace = false
  ∧ submitOrder e (mkTaskData noBreakSpace None (now e + minutes 30) None) st
    = st.
Proof. split; reflexivity. Qed.

Example handleEdit_noBreakSpace :
  handleEdit noon (Some noBreakSpace) 1004 demoState = demoState
  ∧ name <$> tasks (handleEdit noon (Some (noBreakSpace +:+ "Veggie"))
                      1004 demoState) !! 3%nat
    = Some "Veggie".
Proof. split; reflexivity. Qed.
